(** * A shallow embedding of the DCGAN training loop of [src/train.py].

    Tensors are modelled by their values over [R]: a batch is a list of
    samples, each sample the flat list of its values; a label tensor of
    shape (B, 1) is the list of its B entries.  The networks are abstract
    forward functions of their parameters; training is a state and error
    monad over a state holding both networks' parameters, the position in
    the random-number stream, the autograd mode and the trace of the
    effects the loop performs on the networks and the checkpoint store. *)

From Stdlib Require Import String Reals Lra ZArith Arith Lia List.
Import ListNotations.
Open Scope R_scope.

(** ** Tensor arithmetic (element-wise, over flattened values) *)
Module Tensor.

Fixpoint zip_with {A B C : Type} (f : A -> B -> C) (l1 : list A) (l2 : list B)
  : list C :=
  match l1, l2 with
  | x :: l1', y :: l2' => f x y :: zip_with f l1' l2'
  | _, _ => []
  end.

Definition sumR (l : list R) : R := fold_right Rplus 0 l.

(** [torch.mean]: the mean over all elements. *)
Definition mean (l : list R) : R := sumR l / INR (length l).

(** [torch.norm(x, p=2)]: the 2-norm over all elements. *)
Definition norm2 (l : list R) : R := sqrt (sumR (map (fun x => x * x) l)).

Definition flatten (t : list (list R)) : list R := concat t.

(** [a - b] on two batches of the same shape. *)
Definition bsub (a b : list (list R)) : list (list R) :=
  zip_with (zip_with Rminus) a b.

Definition ones (n : nat) : list R := repeat 1 n.
Definition zeros (n : nat) : list R := repeat 0 n.

(** [.view(-1, 1)] on the discriminator output: one value per sample, the
    values unchanged. *)
Definition view (l : list R) : list R := l.

End Tensor.
Import Tensor.

(** ** Constants of [train.py] and [architecture.py] *)
Definition N_EPOCHS : nat := 2.
Definition VALIDATION_INTERVAL : nat := N_EPOCHS / N_EPOCHS.
Definition SAVE_INTERVAL : nat := N_EPOCHS / 1.
Definition LATENT_DIM : nat := 128.

(** ** Loss metrics (pure) *)

(** [calculate_spectral_diff] *)
Definition calculate_spectral_diff (real_audio_data fake_audio_data : list (list R))
  : R :=
  let spectral_diff :=
    mean (map Rabs (flatten (bsub real_audio_data fake_audio_data))) in
  mean [spectral_diff].

(** [calculate_spectral_convergence] *)
Definition calculate_spectral_convergence
  (real_audio_data fake_audio_data : list (list R)) : R :=
  norm2 (flatten (bsub fake_audio_data real_audio_data))
  / (norm2 (flatten real_audio_data) + 1e-8).

(** ** Effects *)

Inductive net := Gen | Disc.

Inductive loss_id := GLoss | DLoss.

(** A tensor passed to a network: its values, and whether it carries the
    autograd history of the computation that produced it. *)
Record tensor := mkT { tdata : list (list R); tgraph : bool }.

Definition detach (t : tensor) : tensor := mkT (tdata t) false.

Inductive event :=
| ETrain (n : net)                         (* n.train() *)
| EEval (n : net)                          (* n.eval() *)
| EZeroGrad (n : net)                      (* optimizer_n.zero_grad() *)
| EForward (n : net) (grad : bool) (x : tensor)  (* n(x), autograd on/off *)
| EBackward (l : loss_id) (retain_graph : bool)  (* l.backward(...) *)
| EOptStep (n : net)                       (* optimizer_n.step() *)
| ESchedStep (n : net)                     (* scheduler_n.step() *)
| EPlot (example epoch : nat)              (* graph_spectrogram(...) *)
| ESave (n : net) (tag : string).          (* save_model(n, tag) *)

Inductive exn := IndexError | ZeroDivisionError | RuntimeError.

Inductive res (A : Type) := Ok (a : A) | Err (e : exn).
Arguments Ok {A} a.
Arguments Err {A} e.

Record St (GP DP : Type) := mkSt {
  gp : GP;             (* generator parameters *)
  dp : DP;             (* discriminator parameters *)
  rng : nat;           (* position in the global random-number stream *)
  grad : bool;         (* torch.is_grad_enabled() *)
  trace : list event   (* effects performed so far *)
}.
Arguments mkSt {GP DP}.
Arguments gp {GP DP}.
Arguments dp {GP DP}.
Arguments rng {GP DP}.
Arguments grad {GP DP}.
Arguments trace {GP DP}.

Definition log {GP DP} (ev : event) (s : St GP DP) : St GP DP :=
  mkSt (gp s) (dp s) (rng s) (grad s) (trace s ++ [ev]).

Definition advance {GP DP} (n : nat) (s : St GP DP) : St GP DP :=
  mkSt (gp s) (dp s) (rng s + n)%nat (grad s) (trace s).

Definition with_grad {GP DP} (g : bool) (s : St GP DP) : St GP DP :=
  mkSt (gp s) (dp s) (rng s) g (trace s).

Definition M (GP DP A : Type) : Type := St GP DP -> res (A * St GP DP).

Definition ret {GP DP A} (a : A) : M GP DP A := fun s => Ok (a, s).

Definition bind {GP DP A B} (m : M GP DP A) (k : A -> M GP DP B) : M GP DP B :=
  fun s => match m s with Ok (a, s') => k a s' | Err e => Err e end.

Definition raise {GP DP A} (e : exn) : M GP DP A := fun _ => Err e.

Definition emit {GP DP} (ev : event) : M GP DP unit := fun s => Ok (tt, log ev s).

Notation "x <- m ;; k" := (bind m (fun x => k))
  (at level 61, m at next level, right associativity).
Notation "m ;; k" := (bind m (fun _ => k))
  (at level 61, right associativity).

(** [torch.rand_like] on a tensor of [n] entries and [torch.randn(B,
    LATENT_DIM, 1, 1)] draw from one global random-number stream; [uniform]
    and [normal] give the value of its [i]-th draw under each distribution. *)
Definition draws (uniform : nat -> R) (pos n : nat) : list R :=
  map uniform (seq pos n).

Definition latent (normal : nat -> R) (pos batch_size : nat) : list (list R) :=
  map (fun i => map (fun j => normal (pos + i * LATENT_DIM + j)%nat)
                    (seq 0 LATENT_DIM))
      (seq 0 batch_size).

Section Training.

Context {GP DP : Type}.
Local Abbreviation MS := (M GP DP).

(** The networks' forward functions, the loss criterion (nn.BCELoss), the
    optimizers' updates of the parameters from their gradients, and the
    random-number stream. *)
Context {gen_fwd : GP -> list (list R) -> list (list R)}.
Context {disc_fwd : DP -> list (list R) -> list R}.
Context {criterion : list R -> list R -> R}.
Context {opt_G : GP -> GP} {opt_D : DP -> DP}.
Context {uniform normal : nat -> R}.

Definition rand_like (t : list R) : MS (list R) :=
  fun s => Ok (draws uniform (rng s) (length t), advance (length t) s).

Definition randn (batch_size : nat) : MS (list (list R)) :=
  fun s => Ok (latent normal (rng s) batch_size,
               advance (batch_size * LATENT_DIM) s).

Definition generator (z : tensor) : MS tensor :=
  fun s => Ok (mkT (gen_fwd (gp s) (tdata z)) (grad s),
               log (EForward Gen (grad s) z) s).

(** [disc_fwd] stands for the network's forward pass on a batch of at
    least one sample; on a batch of 0 samples the repository's
    Discriminator raises (the [.view] of its SelfAttention block), which
    this total function does not model, so facts about the discriminator
    are stated for non-empty batches. *)
Definition discriminator (x : tensor) : MS (list R) :=
  fun s => Ok (disc_fwd (dp s) (tdata x), log (EForward Disc (grad s) x) s).

Definition optimizer_step (n : net) : MS unit :=
  fun s =>
    let s' := match n with
              | Gen => mkSt (opt_G (gp s)) (dp s) (rng s) (grad s) (trace s)
              | Disc => mkSt (gp s) (opt_D (dp s)) (rng s) (grad s) (trace s)
              end in
    Ok (tt, log (EOptStep n) s').

Definition get_grad : MS bool := fun s => Ok (grad s, s).

Definition set_grad (g : bool) : MS unit := fun s => Ok (tt, with_grad g s).

(** [with torch.no_grad(): body] *)
Definition no_grad {A} (body : MS A) : MS A :=
  old <- get_grad;; set_grad false;; a <- body;; set_grad old;; ret a.

(** [loss.backward(retain_graph=...)]: a loss computed while autograd was
    disabled has no [grad_fn], and [backward] raises RuntimeError. *)
Definition backward (l : loss_id) (retain_graph : bool) : MS unit :=
  fun s => if grad s then Ok (tt, log (EBackward l retain_graph) s)
           else Err RuntimeError.

(** Python's [x / n] for a float [x] and an int [n]. *)
Definition py_div (x : R) (n : nat) : MS R :=
  if Nat.eqb n 0 then raise ZeroDivisionError else ret (x / INR n).

(** [smooth_labels] *)
Definition smooth_labels (t : list R) : MS (list R) :=
  let amount := 0.02 in
  match t with
  | [] => raise IndexError
  | x :: _ =>
      if Req_dec_T x 1 then
        r <- rand_like t;; ret (zip_with (fun a u => a + amount * u) t r)
      else
        r <- rand_like t;; ret (zip_with (fun a u => a - amount * u) t r)
  end.

(** [compute_discrim_loss] *)
Definition compute_discrim_loss (real_audio_data fake_audio_data : tensor)
  (real_labels fake_labels : list R) : MS R :=
  ro <- discriminator real_audio_data;;
  let real_loss := criterion (view ro) real_labels in
  fo <- discriminator fake_audio_data;;
  let fake_loss := criterion (view fo) fake_labels in
  let d_adv_loss := (real_loss + fake_loss) / 2 in
  let spectral_diff :=
    0.2 * calculate_spectral_diff (tdata real_audio_data) (tdata fake_audio_data) in
  let spectral_convergence :=
    0.1 * calculate_spectral_convergence (tdata real_audio_data)
                                         (tdata fake_audio_data) in
  ret (d_adv_loss + spectral_diff + spectral_convergence).

(** Lines 90-91 of [train_epoch]: the smoothed training labels. *)
Definition train_labels (batch_size : nat) : MS (list R * list R) :=
  real_labels <- smooth_labels (ones batch_size);;
  fake_labels <- smooth_labels (zeros batch_size);;
  ret (real_labels, fake_labels).

(** The body of the loop of [train_epoch], for one batch; it returns the
    batch's generator and discriminator losses. *)
Definition train_batch (real_audio_data : list (list R)) : MS (R * R) :=
  let batch_size := length real_audio_data in
  let real := mkT real_audio_data false in
  labels <- train_labels batch_size;;
  let (real_labels, fake_labels) := labels in
  (* Train generator *)
  emit (EZeroGrad Gen);;
  z <- randn batch_size;;
  fake_audio_data <- generator (mkT z false);;
  dout <- discriminator fake_audio_data;;
  let g_adv_loss := criterion (view dout) real_labels in
  let g_loss := g_adv_loss in
  backward GLoss true;;
  optimizer_step Gen;;
  emit (ESchedStep Gen);;
  (* Train discriminator *)
  emit (EZeroGrad Disc);;
  let fake_audio_data := detach fake_audio_data in
  d_loss <- compute_discrim_loss real fake_audio_data real_labels fake_labels;;
  backward DLoss false;;
  optimizer_step Disc;;
  emit (ESchedStep Disc);;
  ret (g_loss, d_loss).

(** The body of the loop of [validate], for one batch. *)
Definition val_batch (real_audio_data : list (list R)) : MS (R * R) :=
  let batch_size := length real_audio_data in
  let real := mkT real_audio_data false in
  let real_labels := ones batch_size in
  let fake_labels := zeros batch_size in
  z <- randn batch_size;;
  fake_audio_data <- generator (mkT z false);;
  dout <- discriminator fake_audio_data;;
  let g_loss := criterion dout real_labels in
  d_loss <- compute_discrim_loss real fake_audio_data real_labels fake_labels;;
  ret (g_loss, d_loss).

(** [for ... in dataloader: ...; total_g_loss += g; total_d_loss += d] *)
Fixpoint accumulate (step : list (list R) -> MS (R * R))
  (dataloader : list (list (list R))) (total_g_loss total_d_loss : R)
  : MS (R * R) :=
  match dataloader with
  | [] => ret (total_g_loss, total_d_loss)
  | b :: rest =>
      l <- step b;;
      accumulate step rest (total_g_loss + fst l) (total_d_loss + snd l)
  end.

(** [train_epoch] *)
Definition train_epoch (dataloader : list (list (list R))) : MS (R * R) :=
  emit (ETrain Gen);;
  emit (ETrain Disc);;
  totals <- accumulate train_batch dataloader 0 0;;
  g <- py_div (fst totals) (length dataloader);;
  d <- py_div (snd totals) (length dataloader);;
  ret (g, d).

(** [validate] *)
Definition validate (dataloader : list (list (list R))) : MS (R * R) :=
  emit (EEval Gen);;
  emit (EEval Disc);;
  totals <- no_grad (accumulate val_batch dataloader 0 0);;
  g <- py_div (fst totals) (length dataloader);;
  d <- py_div (snd totals) (length dataloader);;
  ret (g, d).

(** [for i in range(n): graph_spectrogram(..., f"... {i + 1} epoch {epoch + 1}")]
    over the rows of [generated_audio]; the rescaling by the external
    [scale_data_to_range] does not change which example is shown. *)
Fixpoint plot_examples (generated_audio : list (list R)) (epoch : nat)
  (idx : list nat) : MS unit :=
  match idx with
  | [] => ret tt
  | i :: rest =>
      match nth_error generated_audio i with
      | None => raise IndexError
      | Some _ => emit (EPlot (i + 1) (epoch + 1));; plot_examples generated_audio epoch rest
      end
  end.

(** The sample generation after a validation pass in [training_loop].
    [.squeeze()] is left out: it drops the batch dimension only when the
    generator returns a single sample, and the 3 latent vectors give 3. *)
Definition generate_examples (epoch : nat) : MS unit :=
  let examples_to_generate := 3%nat in
  z <- randn examples_to_generate;;
  generated_audio <- generator (mkT z false);;
  plot_examples (tdata generated_audio) epoch (seq 0 examples_to_generate).

(** One iteration of the loop of [training_loop]; printing is not modelled. *)
Definition epoch_body (train_loader val_loader : list (list (list R)))
  (epoch : nat) : MS unit :=
  _ <- train_epoch train_loader;;
  (if Nat.eqb ((epoch + 1) mod VALIDATION_INTERVAL) 0 then
     _ <- validate val_loader;; generate_examples epoch
   else ret tt);;
  (if Nat.eqb ((epoch + 1) mod SAVE_INTERVAL) 0 then
     emit (ESave Gen "DCGAN"%string)
   else ret tt).

Fixpoint run_epochs (train_loader val_loader : list (list (list R)))
  (epochs : list nat) : MS unit :=
  match epochs with
  | [] => ret tt
  | epoch :: rest =>
      epoch_body train_loader val_loader epoch;;
      run_epochs train_loader val_loader rest
  end.

(** [training_loop]: [for epoch in range(N_EPOCHS)]. *)
Definition training_loop (train_loader val_loader : list (list (list R)))
  : MS unit :=
  run_epochs train_loader val_loader (seq 0 N_EPOCHS).

End Training.

(** ** [architecture.py]: the layer stacks, at the level of tensor shapes

    A module maps the shape of one sample to the shape of its output, or
    fails where PyTorch raises: a channel count that does not match the
    layer, a non-positive spatial size, a 4-D-only layer given a flat
    input.  Shapes are per sample (the batch dimension is left out):
    [CHW c h w] for a (c, h, w) feature map, [Flat n] for a vector. *)
Module Architecture.

Inductive shape := CHW (c h w : Z) | Flat (n : Z).

Inductive layer :=
| ConvTranspose2d (cin cout k stride padding : Z)
| Conv2d (spectral_norm : bool) (cin cout k stride padding : Z)
| BatchNorm2d (c : Z)
| ReLU
| LeakyReLU (negative_slope : R)
| Tanh
| Sigmoid
| Upsample (h w : Z)              (* mode bilinear, align_corners False *)
| SelfAttention (in_channels : Z)
| Flatten.

(** Output sizes as in the PyTorch documentation (dilation 1, no output
    padding). *)
Definition conv_transpose_size (n k stride padding : Z) : Z :=
  (n - 1) * stride - 2 * padding + k.

Definition conv_size (n k stride padding : Z) : Z :=
  (n + 2 * padding - k) / stride + 1.

Definition layer_shape (l : layer) (sh : shape) : option shape :=
  match l, sh with
  | ConvTranspose2d cin cout k st p, CHW c h w =>
      let h' := conv_transpose_size h k st p in
      let w' := conv_transpose_size w k st p in
      if ((c =? cin)%Z && (0 <? h)%Z && (0 <? w)%Z && (0 <? h')%Z && (0 <? w')%Z)%bool
      then Some (CHW cout h' w') else None
  | Conv2d _ cin cout k st p, CHW c h w =>
      if ((c =? cin)%Z && (k <=? h + 2 * p)%Z && (k <=? w + 2 * p)%Z)%bool
      then Some (CHW cout (conv_size h k st p) (conv_size w k st p)) else None
  | BatchNorm2d c', CHW c h w => if (c =? c')%Z then Some sh else None
  | (ReLU | LeakyReLU _ | Tanh | Sigmoid), _ => Some sh
  | Upsample h' w', CHW c h w =>
      if ((0 <? h)%Z && (0 <? w)%Z && (0 <? h')%Z && (0 <? w')%Z)%bool
      then Some (CHW c h' w') else None
  | SelfAttention c', CHW c h w => if (c =? c')%Z then Some sh else None
  | Flatten, CHW c h w => Some (Flat (c * h * w))
  | Flatten, Flat n => Some (Flat n)
  | _, Flat _ => None
  end.

(** [nn.Sequential]: the layers in order. *)
Fixpoint sequential_shape (layers : list layer) (sh : shape) : option shape :=
  match layers with
  | [] => Some sh
  | l :: rest =>
      match layer_shape l sh with
      | Some sh' => sequential_shape rest sh'
      | None => None
      end
  end.

Definition LATENT_DIM_Z : Z := Z.of_nat LATENT_DIM.

Section Layers.

(** [N_CHANNELS], [N_FRAMES] and [N_FREQ_BINS] are imported from
    [utils.helpers], which is not part of the sources: any values. *)
Variables N_CHANNELS N_FRAMES N_FREQ_BINS : Z.

(** [Generator.conv_transpose_blocks] *)
Definition generator_layers : list layer :=
  [ ConvTranspose2d LATENT_DIM_Z 256 4 1 0; BatchNorm2d 256; ReLU;
    ConvTranspose2d 256 128 4 2 1; BatchNorm2d 128; ReLU;
    ConvTranspose2d 128 64 4 2 1; BatchNorm2d 64; ReLU;
    ConvTranspose2d 64 32 4 2 1; BatchNorm2d 32; ReLU;
    ConvTranspose2d 32 16 4 2 1; BatchNorm2d 16; ReLU;
    ConvTranspose2d 16 8 4 2 1; BatchNorm2d 8; ReLU;
    ConvTranspose2d 8 4 4 2 1; BatchNorm2d 4; ReLU;
    ConvTranspose2d 4 N_CHANNELS 4 2 1;
    Upsample N_FRAMES N_FREQ_BINS;
    Tanh ].

(** [Discriminator.conv_blocks] *)
Definition discriminator_layers : list layer :=
  [ Upsample 256 256;
    Conv2d true N_CHANNELS 4 4 2 1; LeakyReLU 0.2;
    Conv2d true 4 8 4 2 1; LeakyReLU 0.2; BatchNorm2d 8; SelfAttention 8;
    Conv2d true 8 16 4 2 1; LeakyReLU 0.2; BatchNorm2d 16; SelfAttention 16;
    Conv2d true 16 32 4 2 1; LeakyReLU 0.2; BatchNorm2d 32; SelfAttention 32;
    Conv2d true 32 64 4 2 1; LeakyReLU 0.2; BatchNorm2d 64; SelfAttention 64;
    Conv2d true 64 128 4 2 1; LeakyReLU 0.2; BatchNorm2d 128; SelfAttention 128;
    Conv2d true 128 256 4 2 1; LeakyReLU 0.2; BatchNorm2d 256; SelfAttention 256;
    Conv2d false 256 1 4 2 1;
    Flatten;
    Sigmoid ].

End Layers.

(** [Discriminator.get_features]: run the layers in order and keep every
    intermediate output.  [features.append(x)] stores the tensor object
    itself, and a layer built with [inplace=True] (the discriminator's
    [nn.LeakyReLU]) writes its result into its input object and returns it:
    every stored entry that is that object changes with it.  The model keeps
    the number [k] of trailing entries of [features] that are the current
    object [x]; no other layer of the stack returns an alias of its input
    that a later in-place layer writes to. *)
Section Features.

Context {T : Type}.

Record module := { forward_fn : T -> T; inplace : bool }.

(** [nn.Sequential.forward] *)
Definition sequential (layers : list module) (x : T) : T :=
  fold_left (fun acc layer => forward_fn layer acc) layers x.

Fixpoint get_features_from (layers : list module) (x : T) (features : list T)
  (k : nat) : list T :=
  match layers with
  | [] => features
  | layer :: rest =>
      let x' := forward_fn layer x in
      if inplace layer then
        (* the k entries aliasing x now hold x', and x' is appended again *)
        get_features_from rest x'
          (firstn (length features - k) features ++ repeat x' (S k)) (S k)
      else get_features_from rest x' (features ++ [x']) 1
  end.

Definition get_features (layers : list module) (x : T) : list T :=
  get_features_from layers x [] 0.

(** The number of in-place layers at the head of a stack. *)
Fixpoint inplace_run (layers : list module) : nat :=
  match layers with
  | layer :: rest => if inplace layer then S (inplace_run rest) else 0
  | [] => 0
  end.

End Features.

(** [SelfAttention.forward] on one sample of the batch ([torch.bmm] works
    sample by sample).  A feature map of C channels over
    N = width * height positions is the list of its C rows of N values, the
    layout of [.view(batch_size, -1, width * height)].  A 1x1 convolution
    is its (effective, spectrally normalised) weight matrix and bias. *)
Record conv1x1 := { weight : list (list R); bias : list R }.

Definition dot (u v : list R) : R := sumR (zip_with Rmult u v).

Definition col (j : nat) (m : list (list R)) : list R := map (fun r => nth j r 0) m.

(** [.permute(0, 2, 1)] of a matrix with [n] columns. *)
Definition transpose (n : nat) (m : list (list R)) : list (list R) :=
  map (fun j => col j m) (seq 0 n).

(** [torch.bmm] for one sample: [a] times [b], where [b] has [n] columns. *)
Definition matmul (a b : list (list R)) (n : nat) : list (list R) :=
  map (fun row => map (fun j => dot row (col j b)) (seq 0 n)) a.

Definition apply_conv1x1 (cv : conv1x1) (x : list (list R)) (n : nat)
  : list (list R) :=
  zip_with (fun wrow bo => map (fun j => bo + dot wrow (col j x)) (seq 0 n))
           (weight cv) (bias cv).

(** [F.softmax(., dim=-1)] on one row. *)
Definition softmax (row : list R) : list R :=
  let es := map exp row in map (fun e => e / sumR es) es.

Definition attention_map (query key : conv1x1) (x : list (list R)) (n : nat)
  : list (list R) :=
  let proj_query := transpose n (apply_conv1x1 query x n) in
  let proj_key := apply_conv1x1 key x n in
  let energy := matmul proj_query proj_key n in
  map softmax energy.

Definition self_attention (query key value : conv1x1) (gamma : R)
  (x : list (list R)) (n : nat) : list (list R) :=
  let attention := attention_map query key x n in
  let proj_value := apply_conv1x1 value x n in
  let out := matmul proj_value (transpose n attention) n in
  zip_with (zip_with (fun o xi => gamma * o + xi)) out x.

(** [self.gamma = nn.Parameter(torch.zeros(1))] *)
Definition gamma_init : R := 0.

End Architecture.

(** ** [choose_random_sample] of [utils/audio_processing_validation.py] *)
Module Samples.

(** An entry of [os.listdir(audio_data_dir)] and whether
    [os.path.isfile(os.path.join(audio_data_dir, f))] holds for it. *)
Record dir_entry := { entry_name : string; entry_is_file : bool }.

(** [os.path.join(a, b)] for two components. *)
Definition path_join (a b : string) : string :=
  if String.prefix "/" b then b
  else if String.eqb a "" then b
  else if String.eqb (substring (String.length a - 1) 1 a) "/" then (a ++ b)%string
  else (a ++ "/" ++ b)%string.

(** [random.choice(seq)] is [seq[randbelow(len(seq))]]. *)
Definition choose_random_sample (audio_data_dir : string) (listing : list dir_entry)
  (randbelow : nat -> nat) : res (option string * option string) :=
  let audio_files := map entry_name (filter entry_is_file listing) in
  match audio_files with
  | [] => Ok (None, None)
  | _ =>
      match nth_error audio_files (randbelow (length audio_files)) with
      | Some sample_name =>
          Ok (Some (path_join audio_data_dir sample_name), Some sample_name)
      | None => Err IndexError
      end
  end.

End Samples.

(** A computation that leaves both networks' parameters as they were. *)
Definition keeps_params {GP DP A} (m : M GP DP A) : Prop :=
  forall s a s', m s = Ok (a, s') -> gp s' = gp s /\ dp s' = dp s.

(** ** The discriminator loss as the specification words it *)
Section SpecLoss.

Context {DP : Type}.
Context {disc_fwd : DP -> list (list R) -> list R}.
Context {criterion : list R -> list R -> R}.

(** The value [compute_discrim_loss] computes, as the source composes it. *)
Definition discrim_loss_value (d : DP) (real fake : list (list R))
  (real_labels fake_labels : list R) : R :=
  (criterion (view (disc_fwd d real)) real_labels
   + criterion (view (disc_fwd d fake)) fake_labels) / 2
  + 0.2 * calculate_spectral_diff real fake
  + 0.1 * calculate_spectral_convergence real fake.

(** The composition as the specification states it: the average of the two
    adversarial terms, plus 0.2 times the mean absolute element-wise
    difference, plus 0.1 times ||fake - real|| / (||real|| + 1e-8). *)
Definition spec_discrim_loss (d : DP) (real fake : list (list R))
  (real_labels fake_labels : list R) : R :=
  let r := flatten real in
  let f := flatten fake in
  (criterion (disc_fwd d real) real_labels
   + criterion (disc_fwd d fake) fake_labels) / 2
  + 0.2 * mean (zip_with (fun a b => Rabs (a - b)) r f)
  + 0.1 * (norm2 (zip_with Rminus f r) / (norm2 r + 1e-8)).

End SpecLoss.

Definition same_shape (a b : list (list R)) : Prop :=
  Forall2 (fun x y => length x = length y) a b.

(** ** General lemmas *)

Lemma zip_with_app {A B C} (f : A -> B -> C) (x1 x2 : list A) (y1 y2 : list B) :
  length x1 = length y1 ->
  zip_with f (x1 ++ x2) (y1 ++ y2) = zip_with f x1 y1 ++ zip_with f x2 y2.
Proof.
  revert y1; induction x1 as [|a x1 IH]; intros [|b y1] Hl; simpl in *;
    try discriminate; auto.
  rewrite IH; auto.
Qed.

Lemma flatten_bsub (a b : list (list R)) :
  same_shape a b ->
  flatten (bsub a b) = zip_with Rminus (flatten a) (flatten b).
Proof.
  unfold flatten, bsub; induction 1 as [|x y a b Hxy _ IH]; simpl; auto.
  rewrite zip_with_app by exact Hxy. now rewrite IH.
Qed.

Lemma map_zip_with {A B C D} (g : C -> D) (f : A -> B -> C) l1 l2 :
  map g (zip_with f l1 l2) = zip_with (fun a b => g (f a b)) l1 l2.
Proof.
  revert l2; induction l1 as [|a l1 IH]; intros [|b l2]; simpl; auto.
  now rewrite IH.
Qed.

Lemma mean_singleton (x : R) : mean [x] = x.
Proof. unfold mean, sumR; simpl; field. Qed.

Lemma bsub_self_zero (x : list (list R)) :
  Forall (fun v => v = 0) (flatten (bsub x x)).
Proof.
  unfold flatten, bsub; induction x as [|row x IH]; simpl; auto.
  apply Forall_app; split; auto.
  induction row as [|v row IHr]; simpl; constructor; auto; ring.
Qed.

Lemma sumR_squares_zero (l : list R) :
  Forall (fun v => v = 0) l -> sumR (map (fun v => v * v) l) = 0.
Proof.
  unfold sumR; induction 1 as [|v l Hv _ IH]; simpl; auto.
  rewrite IH, Hv; ring.
Qed.

Lemma norm2_nonneg (l : list R) : 0 <= norm2 l.
Proof. apply sqrt_pos. Qed.

(** Running [compute_discrim_loss]: two forward passes of the
    discriminator, on the real then on the fake batch, and the value above. *)
Lemma compute_discrim_loss_run {GP DP} disc_fwd criterion
  (x y : tensor) rl fl (s : St GP DP) :
  @compute_discrim_loss GP DP disc_fwd criterion x y rl fl s
  = Ok (@discrim_loss_value DP disc_fwd criterion (dp s) (tdata x) (tdata y) rl fl,
        log (EForward Disc (grad s) y) (log (EForward Disc (grad s) x) s)).
Proof. reflexivity. Qed.

Lemma same_shape_sym (a b : list (list R)) : same_shape a b -> same_shape b a.
Proof.
  unfold same_shape; induction 1; constructor; auto.
Qed.

Lemma Forall_zip_with {A B C} (P : A -> Prop) (Q : B -> Prop) (S : C -> Prop)
  (f : A -> B -> C) l1 l2 :
  Forall P l1 -> Forall Q l2 -> (forall a b, P a -> Q b -> S (f a b)) ->
  Forall S (zip_with f l1 l2).
Proof.
  intros H1; revert l2; induction H1 as [|a l1 Ha _ IH]; intros [|b l2] H2 Hf;
    simpl; auto.
  inversion H2; subst; constructor; auto.
Qed.

Lemma draws_range (uniform : nat -> R) pos n :
  (forall i, 0 <= uniform i < 1) -> Forall (fun u => 0 <= u < 1) (draws uniform pos n).
Proof.
  intros Hu; unfold draws; apply Forall_map, Forall_forall; intros; apply Hu.
Qed.

(** The list of the per-batch results of running [step] on every batch in
    turn. *)
Fixpoint batch_losses {GP DP} (step : list (list R) -> M GP DP (R * R))
  (dataloader : list (list (list R))) : M GP DP (list (R * R)) :=
  match dataloader with
  | [] => ret []
  | b :: rest => l <- step b;; ls <- batch_losses step rest;; ret (l :: ls)
  end.

Lemma batch_losses_length {GP DP} step dataloader (s s' : St GP DP) ls :
  batch_losses step dataloader s = Ok (ls, s') -> length ls = length dataloader.
Proof.
  revert s ls; induction dataloader as [|b rest IH]; intros s ls H; simpl in H.
  - inversion H; reflexivity.
  - unfold bind in H; destruct (step b s) as [[l s1]|e]; [|discriminate].
    destruct (batch_losses step rest s1) as [[ls1 s2]|e] eqn:E; [|discriminate].
    inversion H; subst; simpl; f_equal; eapply IH; eauto.
Qed.

(** The accumulating loop adds up exactly the per-batch results. *)
Lemma accumulate_sum {GP DP} step dataloader (tg td : R) (s : St GP DP) :
  accumulate step dataloader tg td s
  = match batch_losses step dataloader s with
    | Ok (ls, s') => Ok ((tg + sumR (map fst ls), td + sumR (map snd ls)), s')
    | Err e => Err e
    end.
Proof.
  revert tg td s; induction dataloader as [|b rest IH]; intros tg td s; simpl.
  - unfold ret, sumR; simpl; do 3 f_equal; ring.
  - unfold bind; destruct (step b s) as [[l s1]|e]; [|reflexivity].
    rewrite IH; destruct (batch_losses step rest s1) as [[ls s2]|e]; [|reflexivity].
    unfold ret, sumR; simpl; do 3 f_equal; ring.
Qed.

Lemma zip_with_length {A B C} (f : A -> B -> C) l1 l2 :
  length l1 = length l2 -> length (zip_with f l1 l2) = length l1.
Proof.
  revert l2; induction l1 as [|a l1 IH]; intros [|b l2] H; simpl in *;
    try discriminate; auto.
Qed.

Lemma draws_length (uniform : nat -> R) pos n : length (draws uniform pos n) = n.
Proof. unfold draws; now rewrite length_map, length_seq. Qed.

(** A forward pass run with autograd disabled. *)
Definition nograd_forward (ev : event) : Prop :=
  exists n x, ev = EForward n false x.

Lemma bind_ok {GP DP A B} (m : M GP DP A) (k : A -> M GP DP B) s b s' :
  bind m k s = Ok (b, s') -> exists a s1, m s = Ok (a, s1) /\ k a s1 = Ok (b, s').
Proof.
  unfold bind; destruct (m s) as [[a s1]|e]; [|discriminate]; eauto.
Qed.

Lemma py_div_state {GP DP} x n (s s' : St GP DP) a :
  py_div x n s = Ok (a, s') -> s' = s.
Proof.
  unfold py_div, raise, ret; destruct (Nat.eqb n 0); [discriminate|].
  intros H; inversion H; reflexivity.
Qed.

(** ** Checkpointing: the save events of a trace *)

Definition is_save (ev : event) : bool :=
  match ev with ESave _ _ => true | _ => false end.

Definition saves (l : list event) : list event := filter is_save l.

(** [m] saves nothing: when it returns, it has only appended events that
    are not saves. *)
Definition no_save {GP DP A} (m : M GP DP A) : Prop :=
  forall s a s', m s = Ok (a, s') -> exists l, trace s' = trace s ++ l /\ saves l = [].

Create HintDb nosave.

Lemma no_save_bind {GP DP A B} (m : M GP DP A) (k : A -> M GP DP B) :
  no_save m -> (forall a, no_save (k a)) -> no_save (bind m k).
Proof.
  intros Hm Hk s b s' H.
  apply bind_ok in H as (a & s1 & H1 & H2).
  destruct (Hm _ _ _ H1) as (l1 & T1 & S1).
  destruct (Hk _ _ _ _ H2) as (l2 & T2 & S2).
  exists (l1 ++ l2); split; [now rewrite T2, T1, app_assoc|].
  unfold saves in *; now rewrite filter_app, S1, S2.
Qed.

Ltac prim_no_save :=
  let s := fresh "s" in let a := fresh "a" in let s' := fresh "s'" in
  let H := fresh "H" in
  intros s a s' H; inversion H; subst; clear H;
  first [ exists []; split; [simpl; now rewrite app_nil_r | reflexivity]
        | eexists; split; reflexivity ].

Lemma no_save_ret {GP DP A} (a : A) : no_save (@ret GP DP A a).
Proof. prim_no_save. Qed.

Lemma no_save_raise {GP DP A} e : no_save (@raise GP DP A e).
Proof. intros s a s' H; discriminate. Qed.

Lemma no_save_emit {GP DP} ev : is_save ev = false -> no_save (@emit GP DP ev).
Proof.
  intros Hev s a s' H; inversion H; subst.
  exists [ev]; split; [reflexivity|]; unfold saves; simpl; now rewrite Hev.
Qed.

Lemma no_save_get_grad {GP DP} : no_save (@get_grad GP DP).
Proof. prim_no_save. Qed.

Lemma no_save_set_grad {GP DP} g : no_save (@set_grad GP DP g).
Proof. prim_no_save. Qed.

Lemma no_save_py_div {GP DP} x n : no_save (@py_div GP DP x n).
Proof.
  unfold py_div; destruct (Nat.eqb n 0); [apply no_save_raise|apply no_save_ret].
Qed.

Lemma no_save_backward {GP DP} l retain : no_save (@backward GP DP l retain).
Proof.
  intros s a s' H; unfold backward in H; destruct (grad s); [|discriminate].
  inversion H; subst; exists [EBackward l retain]; split; reflexivity.
Qed.

#[local] Hint Resolve no_save_ret no_save_raise no_save_get_grad no_save_set_grad
  no_save_py_div no_save_backward : nosave.
#[local] Hint Extern 1 (no_save (emit _)) => (apply no_save_emit; reflexivity) : nosave.

Ltac no_save_tac :=
  repeat first
    [ solve [eauto with nosave]
    | apply no_save_bind; [|intro; cbv beta]
    | match goal with
      | |- no_save (if ?c then _ else _) => destruct c
      | |- no_save (let (_, _) := ?p in _) => destruct p
      end ].

Lemma no_save_accumulate {GP DP} step dataloader tg td :
  (forall b, no_save (step b)) -> no_save (@accumulate GP DP step dataloader tg td).
Proof.
  intros Hs; revert tg td; induction dataloader as [|b rest IH]; intros tg td;
    simpl; no_save_tac.
Qed.

Lemma no_save_plot_examples {GP DP} generated_audio epoch idx :
  no_save (@plot_examples GP DP generated_audio epoch idx).
Proof.
  induction idx as [|i rest IH]; simpl; [apply no_save_ret|].
  destruct (nth_error generated_audio i); no_save_tac.
Qed.

#[local] Hint Resolve no_save_accumulate no_save_plot_examples : nosave.

Lemma in_saves (ev : event) (l : list event) :
  In ev l -> is_save ev = true -> In ev (saves l).
Proof. intros; unfold saves; apply filter_In; auto. Qed.

Section Claims.

Context {GP DP : Type}.
Context {gen_fwd : GP -> list (list R) -> list (list R)}.
Context {disc_fwd : DP -> list (list R) -> list R}.
Context {criterion : list R -> list R -> R}.
Context {opt_G : GP -> GP} {opt_D : DP -> DP}.
Context {uniform normal : nat -> R}.

Local Abbreviation sl := (@smooth_labels GP DP uniform).
Local Abbreviation cdl := (@compute_discrim_loss GP DP disc_fwd criterion).
Local Abbreviation tl := (@train_labels GP DP uniform).
Local Abbreviation te :=
  (@train_epoch GP DP gen_fwd disc_fwd criterion opt_G opt_D uniform normal).
Local Abbreviation va := (@validate GP DP gen_fwd disc_fwd criterion normal).
Local Abbreviation vb := (@val_batch GP DP gen_fwd disc_fwd criterion normal).
Local Abbreviation dlv := (@discrim_loss_value DP disc_fwd criterion).

(** One validation step, with autograd disabled: constant labels, one draw
    of latent vectors and nothing else from the random-number stream, four
    forward passes without autograd, parameters untouched. *)
Lemma val_batch_run (b : list (list R)) (s : St GP DP) :
  grad s = false ->
  let B := length b in
  let z := latent normal (rng s) B in
  let fake := mkT (gen_fwd (gp s) z) false in
  vb b s
  = Ok ((criterion (disc_fwd (dp s) (tdata fake)) (ones B),
         dlv (dp s) b (tdata fake) (ones B) (zeros B)),
        mkSt (gp s) (dp s) (rng s + B * LATENT_DIM)%nat false
             (trace s ++ [EForward Gen false (mkT z false); EForward Disc false fake;
                          EForward Disc false (mkT b false); EForward Disc false fake])).
Proof.
  intros Hg B z fake.
  destruct s as [g d pos gr tr]; simpl in Hg; subst gr.
  unfold val_batch, bind, randn, generator, discriminator, compute_discrim_loss,
    ret, log, advance; simpl.
  unfold log; simpl; rewrite <- !app_assoc; reflexivity.
Qed.

Lemma accumulate_val_nograd (dataloader : list (list (list R))) (tg td : R)
  (s s' : St GP DP) a :
  grad s = false ->
  accumulate vb dataloader tg td s = Ok (a, s') ->
  grad s' = false /\ gp s' = gp s /\ dp s' = dp s
  /\ exists l, trace s' = trace s ++ l /\ Forall nograd_forward l.
Proof.
  revert tg td s; induction dataloader as [|b rest IH]; intros tg td s Hg H;
    simpl in H.
  - inversion H; subst. repeat split; auto. exists []; rewrite app_nil_r; auto.
  - apply bind_ok in H as (l & s1 & H1 & H2).
    rewrite (val_batch_run b s Hg) in H1; inversion H1; subst l s1; clear H1.
    apply IH in H2; [|reflexivity].
    destruct H2 as (Hg' & Hgp & Hdp & l & Htr & Hl).
    simpl in Hgp, Hdp, Htr; repeat split; auto.
    eexists; split; [rewrite Htr, <- app_assoc; reflexivity|].
    apply Forall_app; split; auto.
    repeat constructor; red; eauto.
Qed.
Local Abbreviation tb :=
  (@train_batch GP DP gen_fwd disc_fwd criterion opt_G opt_D uniform normal).

Lemma train_labels_run (batch_size : nat) (s : St GP DP) :
  (1 <= batch_size)%nat ->
  tl batch_size s
  = Ok ((zip_with (fun a u => a + 0.02 * u) (ones batch_size)
                  (draws uniform (rng s) batch_size),
         zip_with (fun a u => a - 0.02 * u) (zeros batch_size)
                  (draws uniform (rng s + batch_size) batch_size)),
        advance batch_size (advance batch_size s)).
Proof.
  intros Hb; destruct batch_size as [|n]; [lia|].
  unfold train_labels, smooth_labels, bind, rand_like, ret, ones, zeros.
  cbn [repeat length].
  destruct (Req_dec_T 1 1) as [_|]; [|congruence].
  destruct (Req_dec_T 0 1) as [|_]; [lra|].
  rewrite !repeat_length; reflexivity.
Qed.

(** One training step on a non-empty batch with autograd enabled: its
    results, its final state and the full sequence of its effects. *)
Lemma train_batch_exec (b : list (list R)) (s : St GP DP) :
  b <> [] -> grad s = true ->
  let B := length b in
  let rl := zip_with (fun a u => a + 0.02 * u) (ones B) (draws uniform (rng s) B) in
  let fl := zip_with (fun a u => a - 0.02 * u) (zeros B) (draws uniform (rng s + B) B) in
  let z := mkT (latent normal (rng s + B + B) B) false in
  let fake := mkT (gen_fwd (gp s) (tdata z)) true in
  tb b s
  = Ok ((criterion (view (disc_fwd (dp s) (tdata fake))) rl,
         @discrim_loss_value DP disc_fwd criterion (dp s) b (tdata fake) rl fl),
        mkSt (opt_G (gp s)) (opt_D (dp s)) (rng s + B + B + B * LATENT_DIM)%nat true
          (trace s ++
           [EZeroGrad Gen; EForward Gen true z; EForward Disc true fake;
            EBackward GLoss true; EOptStep Gen; ESchedStep Gen;
            EZeroGrad Disc; EForward Disc true (mkT b false);
            EForward Disc true (detach fake);
            EBackward DLoss false; EOptStep Disc; ESchedStep Disc])).
Proof.
  intros Hne Hg B rl fl z fake.
  assert (HB : (1 <= B)%nat)
    by (unfold B; destruct b; [congruence|simpl; lia]).
  destruct s as [g d pos gr tr]; cbn [grad] in Hg; subst gr.
  unfold train_batch; fold B.
  unfold bind at 1; rewrite (train_labels_run B _ HB).
  cbn; unfold log; cbn; rewrite <- !app_assoc; reflexivity.
Qed.

(** With autograd disabled the generator's loss has no [grad_fn]: the
    step raises at its first [backward]. *)
Lemma train_batch_nograd (b : list (list R)) (s : St GP DP) :
  b <> [] -> grad s = false -> tb b s = Err RuntimeError.
Proof.
  intros Hne Hg.
  assert (HB : (1 <= length b)%nat) by (destruct b; [congruence|simpl; lia]).
  destruct s as [g d pos gr tr]; cbn [grad] in Hg; subst gr.
  unfold train_batch.
  unfold bind at 1; rewrite (train_labels_run (length b) _ HB).
  reflexivity.
Qed.

(** One training step on a non-empty batch: the full sequence of its
    effects. *)
Lemma train_batch_run (b : list (list R)) (s : St GP DP) :
  b <> [] -> grad s = true ->
  let B := length b in
  let z := mkT (latent normal (rng s + B + B) B) false in
  let fake := mkT (gen_fwd (gp s) (tdata z)) (grad s) in
  exists g_loss d_loss s',
    tb b s = Ok ((g_loss, d_loss), s')
    /\ grad s' = grad s
    /\ trace s' = trace s ++
         [EZeroGrad Gen; EForward Gen (grad s) z; EForward Disc (grad s) fake;
          EBackward GLoss true; EOptStep Gen; ESchedStep Gen;
          EZeroGrad Disc; EForward Disc (grad s) (mkT b false);
          EForward Disc (grad s) (detach fake);
          EBackward DLoss false; EOptStep Disc; ESchedStep Disc].
Proof.
  intros Hne Hg B z fake.
  rewrite (train_batch_exec b s Hne Hg).
  do 3 eexists; split; [reflexivity|].
  unfold fake; rewrite Hg; split; reflexivity.
Qed.

(** C1: for batches of the same shape, [compute_discrim_loss] returns
    exactly the average of the two adversarial criterion terms, plus 0.2 times
    the mean absolute element-wise difference of real and fake, plus 0.1
    times ||fake - real||_2 / (||real||_2 + 1e-8); it runs the discriminator
    on the real batch, then on the fake batch. *)
Theorem compute_discrim_loss_composition (real fake : list (list R))
  (gr gf : bool) (rl fl : list R) (s : St GP DP) :
  same_shape real fake ->
  cdl (mkT real gr) (mkT fake gf) rl fl s
  = Ok (@spec_discrim_loss DP disc_fwd criterion (dp s) real fake rl fl,
        log (EForward Disc (grad s) (mkT fake gf))
            (log (EForward Disc (grad s) (mkT real gr)) s)).
Proof.
  intros Hs.
  rewrite compute_discrim_loss_run; simpl.
  unfold discrim_loss_value, spec_discrim_loss, calculate_spectral_diff,
    calculate_spectral_convergence, view.
  rewrite mean_singleton, (flatten_bsub real fake Hs),
    (flatten_bsub fake real (same_shape_sym _ _ Hs)), map_zip_with.
  reflexivity.
Qed.

(** C2: on a non-empty label tensor, [smooth_labels] chooses between adding
    and subtracting by element 0 alone, and perturbs every entry by 0.02
    times its own uniform draw: an all-ones tensor comes back with every
    entry at least 1, an all-zeros tensor with every entry at most 0. *)
Theorem smooth_labels_direction (Hu : forall i, 0 <= uniform i < 1)
  (t : list R) (s : St GP DP) :
  t <> [] ->
  let r := draws uniform (rng s) (length t) in
  let up := zip_with (fun a u => a + 0.02 * u) t r in
  let down := zip_with (fun a u => a - 0.02 * u) t r in
  sl t s = Ok (if Req_dec_T (hd 0 t) 1 then up else down, advance (length t) s)
  /\ (Forall (fun v => v = 1) t ->
      sl t s = Ok (up, advance (length t) s) /\ Forall (fun v => 1 <= v) up)
  /\ (Forall (fun v => v = 0) t ->
      sl t s = Ok (down, advance (length t) s) /\ Forall (fun v => v <= 0) down).
Proof.
  intros Hne r up down.
  assert (Hrun : sl t s = Ok (if Req_dec_T (hd 0 t) 1 then up else down,
                              advance (length t) s)).
  { destruct t as [|x t']; [congruence|].
    unfold smooth_labels, bind, rand_like, ret; simpl.
    destruct (Req_dec_T x 1); reflexivity. }
  assert (Hr : Forall (fun u => 0 <= u < 1) r) by (apply draws_range; exact Hu).
  split; [exact Hrun|split].
  - intros H1; split.
    + rewrite Hrun. destruct t as [|x t']; [congruence|].
      inversion H1; subst; simpl. destruct (Req_dec_T 1 1); congruence.
    + apply (Forall_zip_with _ _ _ _ t r H1 Hr); intros a u -> [Hu0 _]; lra.
  - intros H0; split.
    + rewrite Hrun. destruct t as [|x t']; [congruence|].
      inversion H0; subst; simpl. destruct (Req_dec_T 0 1); [lra|reflexivity].
    + apply (Forall_zip_with _ _ _ _ t r H0 Hr); intros a u -> [Hu0 _]; lra.
Qed.

(** C9: [smooth_labels] reads element 0 of its argument, so on an empty
    label tensor it raises IndexError, and so does a training step on an
    empty batch. *)
Theorem smooth_labels_empty (s : St GP DP) :
  sl [] s = Err IndexError /\ tb [] s = Err IndexError.
Proof. split; reflexivity. Qed.

Local Abbreviation ge := (@generate_examples GP DP gen_fwd normal).
Local Abbreviation eb :=
  (@epoch_body GP DP gen_fwd disc_fwd criterion opt_G opt_D uniform normal).
Local Abbreviation re :=
  (@run_epochs GP DP gen_fwd disc_fwd criterion opt_G opt_D uniform normal).
Local Abbreviation tloop :=
  (@training_loop GP DP gen_fwd disc_fwd criterion opt_G opt_D uniform normal).

Lemma no_save_rand_like t : no_save (@rand_like GP DP uniform t).
Proof. prim_no_save. Qed.

Lemma no_save_randn n : no_save (@randn GP DP normal n).
Proof. prim_no_save. Qed.

Lemma no_save_generator z : no_save (@generator GP DP gen_fwd z).
Proof. prim_no_save. Qed.

Lemma no_save_discriminator x : no_save (@discriminator GP DP disc_fwd x).
Proof. prim_no_save. Qed.

Lemma no_save_optimizer_step n : no_save (@optimizer_step GP DP opt_G opt_D n).
Proof. destruct n; prim_no_save. Qed.

#[local] Hint Resolve no_save_rand_like no_save_randn no_save_generator
  no_save_discriminator no_save_optimizer_step : nosave.

Lemma no_save_smooth_labels t : no_save (sl t).
Proof.
  destruct t as [|x t]; [apply no_save_raise|]; unfold smooth_labels; no_save_tac.
Qed.

Lemma no_save_compute_discrim_loss x y rl fl : no_save (cdl x y rl fl).
Proof. unfold compute_discrim_loss; no_save_tac. Qed.

#[local] Hint Resolve no_save_smooth_labels no_save_compute_discrim_loss : nosave.

Lemma no_save_train_epoch dataloader : no_save (te dataloader).
Proof.
  unfold train_epoch; no_save_tac.
  apply no_save_accumulate; intros b.
  unfold train_batch, train_labels; no_save_tac.
Qed.

Lemma no_save_validate dataloader : no_save (va dataloader).
Proof.
  unfold validate, no_grad; no_save_tac.
  apply no_save_accumulate; intros b.
  unfold val_batch; no_save_tac.
Qed.

Lemma no_save_generate_examples epoch : no_save (ge epoch).
Proof. unfold generate_examples; no_save_tac. Qed.

#[local] Hint Resolve no_save_train_epoch no_save_validate
  no_save_generate_examples : nosave.

Definition epoch_saves (epoch : nat) : list event :=
  if Nat.eqb ((epoch + 1) mod SAVE_INTERVAL) 0 then [ESave Gen "DCGAN"%string]
  else [].

Lemma epoch_body_saves train_loader val_loader epoch (s s' : St GP DP) u :
  eb train_loader val_loader epoch s = Ok (u, s') ->
  exists l, trace s' = trace s ++ l /\ saves l = epoch_saves epoch.
Proof.
  intros H; unfold epoch_body in H.
  apply bind_ok in H as (x & s1 & E1 & H).
  destruct (no_save_train_epoch _ _ _ _ E1) as (l1 & T1 & S1).
  apply bind_ok in H as (y & s2 & E2 & H).
  assert (Hmid : no_save
    (if Nat.eqb ((epoch + 1) mod VALIDATION_INTERVAL) 0 then
       _ <- va val_loader;; ge epoch
     else ret tt)) by no_save_tac.
  destruct (Hmid _ _ _ E2) as (l2 & T2 & S2).
  unfold epoch_saves.
  destruct (Nat.eqb ((epoch + 1) mod SAVE_INTERVAL) 0);
    [unfold emit in H | unfold ret in H]; inversion H; subst; clear H.
  - exists (l1 ++ l2 ++ [ESave Gen "DCGAN"%string]); split.
    + simpl; rewrite T2, T1, !app_assoc; reflexivity.
    + unfold saves in *; rewrite !filter_app, S1, S2; reflexivity.
  - exists (l1 ++ l2); split.
    + rewrite T2, T1, app_assoc; reflexivity.
    + unfold saves in *; rewrite filter_app, S1, S2; reflexivity.
Qed.

Lemma run_epochs_saves train_loader val_loader epochs (s s' : St GP DP) u :
  re train_loader val_loader epochs s = Ok (u, s') ->
  exists l, trace s' = trace s ++ l /\ saves l = flat_map epoch_saves epochs.
Proof.
  revert s; induction epochs as [|e rest IH]; intros s H; simpl in H.
  - inversion H; subst; exists []; split; [now rewrite app_nil_r|reflexivity].
  - apply bind_ok in H as (x & s1 & E1 & H).
    destruct (epoch_body_saves _ _ _ _ _ _ E1) as (l1 & T1 & S1).
    destruct (IH _ H) as (l2 & T2 & S2).
    exists (l1 ++ l2); split; [now rewrite T2, T1, app_assoc|].
    unfold saves in *; simpl; rewrite filter_app, S1, S2; reflexivity.
Qed.

Lemma no_disc_save (l : list event) :
  Forall (fun ev => ev = ESave Gen "DCGAN"%string) (saves l) ->
  forall tag, ~ In (ESave Disc tag) l.
Proof.
  intros Hs tag Hin.
  apply in_saves in Hin; [|reflexivity].
  rewrite Forall_forall in Hs; specialize (Hs _ Hin); discriminate.
Qed.

(** C8: each epoch of [training_loop] calls [save_model] once if (epoch +
    1) is a multiple of SAVE_INTERVAL and not at all otherwise, and only ever
    with the generator under the tag "DCGAN"; over the whole loop
    (N_EPOCHS = 2, SAVE_INTERVAL = 2) that is the single save of the
    generator after the second epoch, and the discriminator is never
    saved. *)
Theorem training_loop_saves_generator_only :
  (forall train_loader val_loader epoch (s s' : St GP DP) u,
     eb train_loader val_loader epoch s = Ok (u, s') ->
     exists l, trace s' = trace s ++ l
       /\ saves l = (if Nat.eqb ((epoch + 1) mod SAVE_INTERVAL) 0
                     then [ESave Gen "DCGAN"%string] else [])
       /\ forall tag, ~ In (ESave Disc tag) l)
  /\ (forall train_loader val_loader (s s' : St GP DP) u,
        tloop train_loader val_loader s = Ok (u, s') ->
        exists l, trace s' = trace s ++ l
          /\ saves l = flat_map epoch_saves (seq 0 N_EPOCHS)
          /\ saves l = [ESave Gen "DCGAN"%string]
          /\ forall tag, ~ In (ESave Disc tag) l).
Proof.
  split.
  - intros tl' vl e s s' u H.
    destruct (epoch_body_saves _ _ _ _ _ _ H) as (l & T & S).
    exists l; split; [exact T|split; [exact S|]].
    apply no_disc_save; rewrite S; unfold epoch_saves.
    destruct (Nat.eqb _ 0); repeat constructor.
  - intros tl' vl s s' u H.
    destruct (run_epochs_saves _ _ _ _ _ _ H) as (l & T & S).
    exists l; split; [exact T|split; [exact S|]].
    assert (S' : saves l = [ESave Gen "DCGAN"%string]) by (rewrite S; reflexivity).
    split; [exact S'|].
    apply no_disc_save; rewrite S'; repeat constructor.
Qed.

(** C7: a validation step, run with autograd disabled, uses the exact
    constant labels (ones for real, zeros for fake) with the same
    [compute_discrim_loss] composition as training, draws only the latent
    vectors from the random-number stream (no uniform draws: no label
    smoothing) and runs only forward passes without autograd; a whole
    [validate] pass switches the networks to eval mode, then performs only
    forward passes without autograd, updates no parameter and restores the
    autograd mode. *)
Theorem validate_unsmoothed_no_grad :
  (forall (b : list (list R)) (s : St GP DP),
     grad s = false ->
     let B := length b in
     let z := latent normal (rng s) B in
     let fake := mkT (gen_fwd (gp s) z) false in
     vb b s
     = Ok ((criterion (disc_fwd (dp s) (tdata fake)) (ones B),
            dlv (dp s) b (tdata fake) (ones B) (zeros B)),
           mkSt (gp s) (dp s) (rng s + B * LATENT_DIM)%nat false
                (trace s ++ [EForward Gen false (mkT z false);
                             EForward Disc false fake;
                             EForward Disc false (mkT b false);
                             EForward Disc false fake])))
  /\ (forall (dataloader : list (list (list R))) (s s' : St GP DP) a,
        va dataloader s = Ok (a, s') ->
        grad s' = grad s /\ gp s' = gp s /\ dp s' = dp s
        /\ exists l, trace s' = trace s ++ [EEval Gen; EEval Disc] ++ l
                    /\ Forall nograd_forward l).
Proof.
  split; [exact val_batch_run|].
  intros dataloader s s' a H.
  unfold validate in H.
  apply bind_ok in H as (u1 & s1 & E1 & H); inversion E1; subst u1 s1; clear E1.
  apply bind_ok in H as (u2 & s2 & E2 & H); inversion E2; subst u2 s2; clear E2.
  apply bind_ok in H as (tot & s3 & E3 & H).
  apply bind_ok in H as (g & s4 & E4 & H); apply py_div_state in E4; subst s4.
  apply bind_ok in H as (d & s5 & E5 & H); apply py_div_state in E5; subst s5.
  inversion H; subst s'; clear H.
  unfold no_grad in E3.
  apply bind_ok in E3 as (old & t1 & F1 & E3); inversion F1; subst old t1; clear F1.
  apply bind_ok in E3 as (u3 & t2 & F2 & E3); inversion F2; subst u3 t2; clear F2.
  apply bind_ok in E3 as (tot' & t3 & F3 & E3).
  apply bind_ok in E3 as (u4 & t4 & F4 & E3); inversion F4; subst u4 t4; clear F4.
  inversion E3; subst; clear E3.
  apply accumulate_val_nograd in F3 as (_ & Hgp & Hdp & l & Htr & Hl);
    [|reflexivity].
  simpl in *; repeat split; auto.
  exists l; split; auto.
  rewrite Htr, <- !app_assoc; reflexivity.
Qed.

Lemma batch_losses_train_ok (dataloader : list (list (list R))) (s : St GP DP) :
  grad s = true -> Forall (fun b => b <> []) dataloader ->
  exists ls s', batch_losses tb dataloader s = Ok (ls, s') /\ grad s' = true.
Proof.
  intros Hg Hf; revert s Hg; induction Hf as [|b rest Hb _ IH]; intros s Hg; simpl.
  - eexists; eexists; split; [reflexivity|exact Hg].
  - unfold bind at 1.
    destruct (train_batch_run b s Hb Hg) as (g & d & s1 & E & G1 & _); rewrite E.
    destruct (IH s1) as (ls & s' & E' & G'); [congruence|].
    unfold bind; rewrite E'.
    eexists; eexists; split; [reflexivity|exact G'].
Qed.

Lemma train_epoch_ok (dataloader : list (list (list R))) (s : St GP DP) :
  grad s = true -> dataloader <> [] -> Forall (fun b => b <> []) dataloader ->
  exists r s', te dataloader s = Ok (r, s') /\ grad s' = true.
Proof.
  intros Hg Hne Hf.
  unfold train_epoch, bind at 1 2; unfold emit at 1 2.
  unfold bind at 1; rewrite accumulate_sum.
  destruct (batch_losses_train_ok dataloader
              (log (ETrain Disc) (log (ETrain Gen) s)) Hg Hf) as (ls & s' & E & G).
  rewrite E.
  unfold bind, py_div, ret, raise.
  destruct dataloader as [|b rest]; [congruence|]; simpl.
  eexists; eexists; split; [reflexivity|exact G].
Qed.

(** C3: in one training iteration (autograd enabled, non-empty batch) the
    generator update -- zero its gradients, forward, backward of its loss
    with the graph retained, optimizer step, scheduler step -- is complete
    before the discriminator update begins, and the fake batch the
    discriminator's composed loss receives is the detached copy of the fake
    batch generated in this same iteration, from the generator parameters
    before its update. *)
Theorem train_batch_generator_before_discriminator (b : list (list R))
  (s : St GP DP) :
  b <> [] -> grad s = true ->
  let B := length b in
  let z := mkT (latent normal (rng s + B + B) B) false in
  let fake := mkT (gen_fwd (gp s) (tdata z)) true in
  exists g_loss d_loss s',
    tb b s = Ok ((g_loss, d_loss), s')
    /\ trace s' = trace s ++
         [EZeroGrad Gen; EForward Gen true z; EForward Disc true fake;
          EBackward GLoss true; EOptStep Gen; ESchedStep Gen;
          EZeroGrad Disc; EForward Disc true (mkT b false);
          EForward Disc true (mkT (tdata fake) false);
          EBackward DLoss false; EOptStep Disc; ESchedStep Disc].
Proof.
  intros Hne Hg.
  destruct (train_batch_run b s Hne Hg) as (g_loss & d_loss & s' & Hrun & _ & Htr).
  rewrite Hg in Htr.
  exists g_loss, d_loss, s'; split; [exact Hrun|exact Htr].
Qed.

(** C4 (amended): with uniform draws in [0, 1), the smoothed training
    labels of a non-empty batch are pushed outward past the ends of [0, 1]:
    real labels in [1, 1.02) and fake labels in (-0.02, 0].  Validation
    uses no smoothing: on a batch of B samples [val_batch] takes its
    targets from [ones B] and [zeros B], whose entries are exactly 1 and 0
    and so lie in [0, 1]. *)
Theorem train_labels_range (Hu : forall i, 0 <= uniform i < 1)
  (batch_size : nat) (s : St GP DP) :
  (1 <= batch_size)%nat ->
  (exists real_labels fake_labels s',
      tl batch_size s = Ok ((real_labels, fake_labels), s')
      /\ length real_labels = batch_size /\ length fake_labels = batch_size
      /\ Forall (fun v => 1 <= v < 1.02) real_labels
      /\ Forall (fun v => -0.02 < v <= 0) fake_labels)
  /\ Forall (fun v => 0 <= v <= 1) (ones batch_size)
  /\ Forall (fun v => 0 <= v <= 1) (zeros batch_size)
  /\ Forall (fun v => v = 1) (ones batch_size)
  /\ Forall (fun v => v = 0) (zeros batch_size)
  /\ (forall (b : list (list R)) (s1 : St GP DP),
        let B := length b in
        let fake := gen_fwd (gp s1) (latent normal (rng s1) B) in
        exists s',
          vb b s1 = Ok ((criterion (disc_fwd (dp s1) fake) (ones B),
                         dlv (dp s1) b fake (ones B) (zeros B)), s')).
Proof.
  intros Hb.
  assert (H1 : Forall (fun v => v = 1) (ones batch_size))
    by (apply Forall_forall; intros v Hv; exact (repeat_spec _ _ _ Hv)).
  assert (H0 : Forall (fun v => v = 0) (zeros batch_size))
    by (apply Forall_forall; intros v Hv; exact (repeat_spec _ _ _ Hv)).
  split; [|split; [|split; [|split; [|split]]]].
  - rewrite (train_labels_run batch_size s Hb).
    do 3 eexists; split; [reflexivity|].
    repeat split.
    + rewrite zip_with_length; unfold ones;
        rewrite ?repeat_length, ?draws_length; reflexivity.
    + rewrite zip_with_length; unfold zeros;
        rewrite ?repeat_length, ?draws_length; reflexivity.
    + apply (Forall_zip_with _ _ _ _ _ _ H1 (draws_range _ _ _ Hu));
        intros a u -> [Hu0 Hu1]; lra.
    + apply (Forall_zip_with _ _ _ _ _ _ H0 (draws_range _ _ _ Hu));
        intros a u -> [Hu0 Hu1]; lra.
  - eapply Forall_impl; [|exact H1]; intros v ->; lra.
  - eapply Forall_impl; [|exact H0]; intros v ->; lra.
  - exact H1.
  - exact H0.
  - intros b s1 B fake.
    unfold val_batch, bind, randn, generator, discriminator, compute_discrim_loss, ret.
    eexists; reflexivity.
Qed.

(** C6: on a dataloader of K >= 1 batches, [train_epoch] returns the sum of
    the K per-batch generator losses divided by K and the sum of the K
    per-batch discriminator losses divided by K. *)
Theorem train_epoch_means (dataloader : list (list (list R))) (s : St GP DP) :
  (1 <= length dataloader)%nat ->
  te dataloader s
  = match batch_losses tb dataloader (log (ETrain Disc) (log (ETrain Gen) s)) with
    | Ok (ls, s') =>
        Ok ((sumR (map fst ls) / INR (length dataloader),
             sumR (map snd ls) / INR (length dataloader)), s')
    | Err e => Err e
    end
  /\ (forall ls s' s0, batch_losses tb dataloader s0 = Ok (ls, s') ->
      length ls = length dataloader).
Proof.
  intros HK; split; [|intros ls s' s0; apply batch_losses_length].
  unfold train_epoch, bind at 1 2; unfold emit at 1 2.
  unfold bind at 1; rewrite accumulate_sum.
  destruct (batch_losses tb dataloader _) as [[ls s']|e]; [|reflexivity].
  unfold bind, py_div, ret, raise.
  destruct (Nat.eqb_spec (length dataloader) 0) as [Hz|_]; [lia|].
  simpl; do 4 f_equal; ring.
Qed.

(** C10: on a dataloader with no batch, both [train_epoch] and [validate]
    raise ZeroDivisionError when dividing the totals by its length. *)
Theorem epoch_empty_loader (s : St GP DP) :
  te [] s = Err ZeroDivisionError /\ va [] s = Err ZeroDivisionError.
Proof. split; reflexivity. Qed.

End Claims.

(** C4: a valid uniform draw of 1/2 already takes the smoothed real label
    of a one-sample batch above 1 and its fake label below 0. *)
Lemma train_labels_outside_unit_interval :
  (forall i : nat, 0 <= (fun _ : nat => / 2) i < 1)
  /\ exists real_labels fake_labels (s' : St unit unit),
      train_labels (uniform := fun _ => / 2) 1 (mkSt tt tt 0 true [])
      = Ok ((real_labels, fake_labels), s')
      /\ Exists (fun v => 1 < v) real_labels
      /\ Exists (fun v => v < 0) fake_labels.
Proof.
  split; [intros _; lra|].
  rewrite (train_labels_run (uniform := fun _ => / 2)) by lia.
  do 3 eexists; split; [reflexivity|].
  unfold ones, zeros, draws; simpl; split; constructor; lra.
Qed.

(** C5: the spectral convergence of a batch with itself is 0, and its
    denominator ||real||_2 + 1e-8 is positive for every batch, the all-zeros
    one included. *)
Theorem spectral_convergence_self (x : list (list R)) :
  calculate_spectral_convergence x x = 0
  /\ 0 < norm2 (flatten x) + 1e-8.
Proof.
  assert (Hpos : 0 < norm2 (flatten x) + 1e-8)
    by (pose proof (norm2_nonneg (flatten x)); lra).
  split; [|exact Hpos].
  unfold calculate_spectral_convergence, norm2 at 1.
  rewrite (sumR_squares_zero _ (bsub_self_zero x)), sqrt_0.
  unfold Rdiv; ring.
Qed.

(** ** A concrete instance: unit parameters, the identity generator, a
    constant discriminator and criterion, draws of 1/2 and 0. *)
Definition toy_gen (_ : unit) (z : list (list R)) : list (list R) := z.
Definition toy_disc (_ : unit) (x : list (list R)) : list R := map (fun _ => 0) x.
Definition toy_crit (_ _ : list R) : R := 0.
Definition toy_step (p : unit) : unit := p.
Definition toy_uniform (_ : nat) : R := / 2.
Definition toy_normal (_ : nat) : R := 0.
Definition s0 : St unit unit := mkSt tt tt 0 true [].

Abbreviation toy_train_batch :=
  (@train_batch unit unit toy_gen toy_disc toy_crit toy_step toy_step
     toy_uniform toy_normal).
Abbreviation toy_train_epoch :=
  (@train_epoch unit unit toy_gen toy_disc toy_crit toy_step toy_step
     toy_uniform toy_normal).
Abbreviation toy_validate :=
  (@validate unit unit toy_gen toy_disc toy_crit toy_normal).
Abbreviation toy_epoch_body :=
  (@epoch_body unit unit toy_gen toy_disc toy_crit toy_step toy_step
     toy_uniform toy_normal).
Abbreviation toy_training_loop :=
  (@training_loop unit unit toy_gen toy_disc toy_crit toy_step toy_step
     toy_uniform toy_normal).

Lemma toy_uniform_range : forall i, 0 <= toy_uniform i < 1.
Proof. intros i; unfold toy_uniform; lra. Qed.

Lemma toy_epoch_body_ok (epoch : nat) (s : St unit unit) :
  grad s = true ->
  exists s', toy_epoch_body [[[0]]] [[[0]]] epoch s = Ok (tt, s') /\ grad s' = true.
Proof.
  intros Hg.
  unfold epoch_body, bind at 1.
  destruct (train_epoch_ok (gen_fwd := toy_gen) (disc_fwd := toy_disc)
              (criterion := toy_crit) (opt_G := toy_step) (opt_D := toy_step)
              (uniform := toy_uniform) (normal := toy_normal) [[[0]]] s Hg)
    as (r & s1 & E & G1); [discriminate|repeat constructor; discriminate|].
  rewrite E.
  destruct ((epoch + 1) mod VALIDATION_INTERVAL =? 0);
    destruct ((epoch + 1) mod SAVE_INTERVAL =? 0);
    (eexists; split; [reflexivity|]); cbn; exact G1.
Qed.

Lemma toy_training_loop_ok :
  exists s', toy_training_loop [[[0]]] [[[0]]] s0 = Ok (tt, s').
Proof.
  cbn [training_loop run_epochs seq N_EPOCHS].
  unfold bind at 1.
  destruct (toy_epoch_body_ok 0 s0) as (s1 & E1 & G1); [reflexivity|]; rewrite E1.
  unfold bind.
  destruct (toy_epoch_body_ok 1 s1 G1) as (s2 & E2 & _); rewrite E2.
  eexists; reflexivity.
Qed.

Abbreviation toy_val_batch :=
  (@val_batch unit unit toy_gen toy_disc toy_crit toy_normal).

(** ** Witnesses: the theorems above applied at concrete inputs *)

Lemma compute_discrim_loss_composition_witness :
  same_shape [[0]] [[1]]
  /\ compute_discrim_loss (GP := unit) (disc_fwd := toy_disc) (criterion := toy_crit)
       (mkT [[0]] false) (mkT [[1]] false) [1] [0] s0
     = Ok (spec_discrim_loss (disc_fwd := toy_disc) (criterion := toy_crit)
             tt [[0]] [[1]] [1] [0],
           log (EForward Disc true (mkT [[1]] false))
               (log (EForward Disc true (mkT [[0]] false)) s0)).
Proof.
  assert (H : same_shape [[0]] [[1]]) by (repeat constructor).
  split; [exact H|].
  exact (compute_discrim_loss_composition (disc_fwd := toy_disc)
           (criterion := toy_crit) [[0]] [[1]] false false [1] [0] s0 H).
Defined.

Lemma smooth_labels_direction_witness :
  (forall i, 0 <= toy_uniform i < 1) /\ [1; 1] <> []
  /\ smooth_labels (GP := unit) (DP := unit) (uniform := toy_uniform) [1; 1] s0
     = Ok ([1 + 0.02 * / 2; 1 + 0.02 * / 2], advance 2 s0).
Proof.
  assert (Hne : [1; 1] <> []) by discriminate.
  split; [exact toy_uniform_range|split; [exact Hne|]].
  destruct (smooth_labels_direction (uniform := toy_uniform) toy_uniform_range
              [1; 1] s0 Hne) as (_ & H1 & _).
  destruct H1 as [H1 _]; [repeat constructor|].
  exact H1.
Defined.

Lemma train_batch_generator_before_discriminator_witness :
  [[0]] <> [] /\ grad s0 = true
  /\ exists g_loss d_loss s',
       toy_train_batch [[0]] s0 = Ok ((g_loss, d_loss), s')
       /\ length (trace s') = 12%nat.
Proof.
  assert (Hne : [[0]] <> ([] : list (list R))) by discriminate.
  assert (Hg : grad s0 = true) by reflexivity.
  split; [exact Hne|split; [exact Hg|]].
  destruct (train_batch_generator_before_discriminator (gen_fwd := toy_gen)
              (disc_fwd := toy_disc) (criterion := toy_crit) (opt_G := toy_step)
              (opt_D := toy_step) (uniform := toy_uniform) (normal := toy_normal)
              [[0]] s0 Hne Hg) as (g_loss & d_loss & s' & E & T).
  exists g_loss, d_loss, s'; split; [exact E|].
  rewrite T; reflexivity.
Defined.

Lemma train_labels_range_witness :
  (forall i, 0 <= toy_uniform i < 1) /\ (1 <= 2)%nat
  /\ exists real_labels fake_labels s',
       train_labels (GP := unit) (DP := unit) (uniform := toy_uniform) 2 s0
       = Ok ((real_labels, fake_labels), s')
       /\ Forall (fun v => 1 <= v < 1.02) real_labels
       /\ Forall (fun v => -0.02 < v <= 0) fake_labels.
Proof.
  assert (Hb : (1 <= 2)%nat) by lia.
  split; [exact toy_uniform_range|split; [exact Hb|]].
  destruct (train_labels_range (GP := unit) (DP := unit) (uniform := toy_uniform)
              (gen_fwd := toy_gen) (disc_fwd := toy_disc) (criterion := toy_crit)
              (normal := toy_normal) toy_uniform_range 2 s0 Hb)
    as [(rl & fl & s' & E & _ & _ & H1 & H2) _].
  exists rl, fl, s'; auto.
Defined.

Lemma train_epoch_means_witness :
  (1 <= length [[[0]]])%nat
  /\ exists ls s',
       batch_losses toy_train_batch [[[0]]] (log (ETrain Disc) (log (ETrain Gen) s0))
       = Ok (ls, s')
       /\ toy_train_epoch [[[0]]] s0
          = Ok ((sumR (map fst ls) / INR 1, sumR (map snd ls) / INR 1), s')
       /\ length ls = 1%nat.
Proof.
  assert (HK : (1 <= length [[[0]]])%nat) by (simpl; lia).
  split; [exact HK|].
  destruct (train_epoch_means (gen_fwd := toy_gen) (disc_fwd := toy_disc)
              (criterion := toy_crit) (opt_G := toy_step) (opt_D := toy_step)
              (uniform := toy_uniform) (normal := toy_normal) [[[0]]] s0 HK)
    as [Hte Hlen].
  destruct (batch_losses_train_ok (gen_fwd := toy_gen) (disc_fwd := toy_disc)
              (criterion := toy_crit) (opt_G := toy_step) (opt_D := toy_step)
              (uniform := toy_uniform) (normal := toy_normal) [[[0]]]
              (log (ETrain Disc) (log (ETrain Gen) s0)))
    as (ls & s' & E & _); [reflexivity|repeat constructor; discriminate|].
  exists ls, s'; split; [exact E|split].
  - rewrite Hte, E; reflexivity.
  - exact (Hlen ls s' _ E).
Defined.

Lemma validate_unsmoothed_no_grad_witness :
  grad (with_grad false s0) = false
  /\ (exists r s'', toy_val_batch [[0]] (with_grad false s0) = Ok (r, s'')
                    /\ rng s'' = (1 * LATENT_DIM)%nat)
  /\ exists a s', toy_validate [[[0]]] s0 = Ok (a, s')
                  /\ dp s' = dp s0 /\ grad s' = grad s0.
Proof.
  destruct (validate_unsmoothed_no_grad (gen_fwd := toy_gen) (disc_fwd := toy_disc)
              (criterion := toy_crit) (normal := toy_normal)) as [Hb Hv].
  assert (Hg : grad (with_grad false s0) = false) by reflexivity.
  split; [exact Hg|split].
  - rewrite (Hb [[0]] (with_grad false s0) Hg).
    eexists; eexists; split; reflexivity.
  - assert (E : exists a s', toy_validate [[[0]]] s0 = Ok (a, s'))
      by (eexists; eexists; reflexivity).
    destruct E as (a & s' & E).
    destruct (Hv _ _ _ _ E) as (Hg' & _ & Hdp & _).
    exists a, s'; auto.
Defined.

Lemma training_loop_saves_generator_only_witness :
  (exists s', toy_epoch_body [[[0]]] [[[0]]] 1 s0 = Ok (tt, s')
              /\ exists l, trace s' = trace s0 ++ l
                           /\ saves l = [ESave Gen "DCGAN"%string])
  /\ (exists s', toy_training_loop [[[0]]] [[[0]]] s0 = Ok (tt, s')
                 /\ exists l, trace s' = trace s0 ++ l
                              /\ saves l = [ESave Gen "DCGAN"%string]).
Proof.
  destruct (training_loop_saves_generator_only (gen_fwd := toy_gen)
              (disc_fwd := toy_disc) (criterion := toy_crit) (opt_G := toy_step)
              (opt_D := toy_step) (uniform := toy_uniform) (normal := toy_normal))
    as [He Hl].
  split.
  - destruct (toy_epoch_body_ok 1 s0) as (s' & E & _); [reflexivity|].
    exists s'; split; [exact E|].
    destruct (He _ _ _ _ _ _ E) as (l & T & S & _).
    exists l; split; [exact T|exact S].
  - assert (E : exists s', toy_training_loop [[[0]]] [[[0]]] s0 = Ok (tt, s'))
      by exact toy_training_loop_ok.
    destruct E as (s' & E).
    exists s'; split; [exact E|].
    destruct (Hl _ _ _ _ _ E) as (l & T & _ & S & _).
    exists l; split; [exact T|exact S].
Defined.

(** ** Further properties of the code *)

Module ArchitectureFacts.
Import Architecture.

Lemma sequential_shape_app (l1 l2 : list layer) (sh : shape) :
  sequential_shape (l1 ++ l2) sh
  = match sequential_shape l1 sh with
    | Some sh' => sequential_shape l2 sh'
    | None => None
    end.
Proof.
  revert sh; induction l1 as [|l l1 IH]; intros sh; simpl; auto.
  destruct (layer_shape l sh); auto.
Qed.

(** One layer at a time: decide the guards of [layer_shape] by arithmetic. *)
Ltac shape_guards :=
  repeat match goal with
  | |- context [(?a <? ?b)%Z] =>
      replace (a <? b)%Z with true
        by (symmetry; apply Z.ltb_lt; unfold conv_transpose_size, conv_size; lia)
  | |- context [(?a <=? ?b)%Z] =>
      replace (a <=? b)%Z with true
        by (symmetry; apply Z.leb_le; unfold conv_transpose_size, conv_size; lia)
  | |- context [(?a =? ?a)%Z] => rewrite (Z.eqb_refl a)
  end.

Ltac run_shape :=
  repeat (cbn [sequential_shape layer_shape andb]; shape_guards).

(** X1: on a latent batch of shape (LATENT_DIM, h, w) with h, w >= 1 the
    generator's transposed convolutions produce (N_CHANNELS, 128 (h + 3),
    128 (w + 3)) -- 512 x 512 for the 1 x 1 latent of [train.py] -- and the
    final Upsample brings it to (N_CHANNELS, N_FRAMES, N_FREQ_BINS); any
    other channel count, or a flat input, is rejected by the first layer. *)
Theorem generator_output_shape (NC NF NB h w : Z) :
  (1 <= h)%Z -> (1 <= w)%Z -> (0 < NF)%Z -> (0 < NB)%Z ->
  sequential_shape (firstn 22 (generator_layers NC NF NB)) (CHW LATENT_DIM_Z h w)
  = Some (CHW NC (128 * (h + 3)) (128 * (w + 3)))
  /\ sequential_shape (generator_layers NC NF NB) (CHW LATENT_DIM_Z h w)
     = Some (CHW NC NF NB)
  /\ (forall c h' w', c <> LATENT_DIM_Z ->
        sequential_shape (generator_layers NC NF NB) (CHW c h' w') = None)
  /\ (forall n, sequential_shape (generator_layers NC NF NB) (Flat n) = None).
Proof.
  intros Hh Hw HF HB; split; [|split; [|split]].
  - unfold generator_layers; cbn [firstn]; run_shape.
    f_equal; f_equal; unfold conv_transpose_size; lia.
  - unfold generator_layers; run_shape; reflexivity.
  - intros c h' w' Hc; unfold generator_layers; cbn [sequential_shape layer_shape].
    replace (c =? LATENT_DIM_Z)%Z with false by (symmetry; apply Z.eqb_neq; exact Hc).
    reflexivity.
  - intros n; reflexivity.
Qed.

(** X2: whatever the spatial size h, w >= 1 of an (N_CHANNELS, h, w)
    sample, the discriminator resamples it to 256 x 256 and ends on a
    single value per sample, so that [.view(-1, 1)] gives one score per
    sample.  Any other channel count is rejected by its first
    convolution. *)
Theorem discriminator_output_shape (NC h w : Z) :
  (1 <= h)%Z -> (1 <= w)%Z ->
  sequential_shape (discriminator_layers NC) (CHW NC h w) = Some (Flat 1)
  /\ (forall c, c <> NC ->
        sequential_shape (discriminator_layers NC) (CHW c h w) = None).
Proof.
  intros Hh Hw; split.
  - unfold discriminator_layers; run_shape; reflexivity.
  - intros c Hc; unfold discriminator_layers; run_shape.
    replace (c =? NC)%Z with false by (symmetry; apply Z.eqb_neq; exact Hc).
    reflexivity.
Qed.

Section FeaturesFacts.

Context {T : Type}.

Lemma firstn_len_app {A} (l1 l2 : list A) : firstn (length l1) (l1 ++ l2) = l1.
Proof. induction l1 as [|a l1 IH]; simpl; [reflexivity|now rewrite IH]. Qed.

Lemma skipn_len_app {A} (l1 l2 : list A) : skipn (length l1) (l1 ++ l2) = l2.
Proof. induction l1 as [|a l1 IH]; simpl; [reflexivity|exact IH]. Qed.

(** The value the i-th stored feature ends up with: the input run through
    layer i and every in-place layer directly after it. *)
Definition feature_value (layers : list (@module T)) (x : T) (i : nat) : T :=
  sequential (firstn (S i + inplace_run (skipn (S i) layers)) layers) x.

Lemma feature_value_cons (l : @module T) (rest : list module) (x : T) (j : nat) :
  feature_value (l :: rest) x (S j) = feature_value rest (forward_fn l x) j.
Proof. reflexivity. Qed.

Lemma repeat_snoc {A} (a : A) n : repeat a n ++ [a] = a :: repeat a n.
Proof. induction n as [|n IH]; simpl; [reflexivity|now rewrite IH]. Qed.
Lemma get_features_from_values (layers : list (@module T)) (x : T)
  (features : list T) (k : nat) :
  (k <= length features)%nat ->
  skipn (length features - k) features = repeat x k ->
  get_features_from layers x features k
  = firstn (length features - k) features
    ++ repeat (sequential (firstn (inplace_run layers) layers) x) k
    ++ map (feature_value layers x) (seq 0 (length layers)).
Proof.
  revert x features k; induction layers as [|l rest IH]; intros x features k Hk Hs.
  - cbn [get_features_from inplace_run firstn sequential fold_left length seq map].
    rewrite app_nil_r, <- Hs, firstn_skipn; reflexivity.
  - cbn [get_features_from]; destruct (inplace l) eqn:Hi.
    + set (F := firstn (length features - k) features).
      assert (HF : length F = (length features - k)%nat)
        by (unfold F; rewrite length_firstn; lia).
      rewrite IH.
      2: rewrite length_app, repeat_length; lia.
      2: { rewrite length_app, repeat_length.
           replace (length F + S k - S k)%nat with (length F) by lia.
           apply skipn_len_app. }
      rewrite length_app, repeat_length.
      replace (length F + S k - S k)%nat with (length F) by lia.
      rewrite firstn_len_app.
      f_equal.
      cbn [inplace_run length seq map]; rewrite Hi, <- seq_shift, map_map.
      unfold feature_value at 2; cbn [skipn inplace_run plus firstn sequential fold_left].
      try rewrite Hi.
      cbn [repeat]; rewrite <- repeat_snoc, <- app_assoc; reflexivity.
    + rewrite IH.
      2: rewrite length_app; simpl; lia.
      2: { rewrite length_app; cbn [length].
           replace (length features + 1 - 1)%nat with (length features) by lia.
           apply skipn_len_app. }
      rewrite length_app; cbn [length].
      replace (length features + 1 - 1)%nat with (length features) by lia.
      rewrite firstn_len_app.
      cbn [inplace_run length seq map]; rewrite Hi, <- seq_shift, map_map.
      unfold feature_value at 2; cbn [skipn inplace_run plus firstn sequential fold_left].
      try rewrite Hi.
      cbn [repeat app].
      rewrite <- (firstn_skipn (length features - k) features) at 1.
      rewrite Hs, <- !app_assoc; reflexivity.
Qed.

Lemma get_features_values (layers : list (@module T)) (x : T) :
  get_features layers x = map (feature_value layers x) (seq 0 (length layers)).
Proof.
  unfold get_features; rewrite get_features_from_values; simpl; auto.
Qed.

(** X3: [get_features] returns one feature per layer.  When layer i + 1
    is not in place (or there is none), the i-th feature is the input run
    through the first i + 1 layers -- the last one is the output of
    [forward]; when layer i + 1 is in place (the LeakyReLU after each
    convolution), it writes into the tensor already stored as the i-th
    feature, which then equals the (i + 1)-th. *)
Theorem get_features_aliasing (layers : list (@module T)) (x : T) :
  length (get_features layers x) = length layers
  /\ (forall i, (i < length layers)%nat ->
        (forall l, nth_error layers (S i) = Some l -> inplace l = false) ->
        nth_error (get_features layers x) i = Some (sequential (firstn (S i) layers) x))
  /\ (forall i l, nth_error layers (S i) = Some l -> inplace l = true ->
        nth_error (get_features layers x) i = nth_error (get_features layers x) (S i))
  /\ (layers <> [] ->
        nth_error (get_features layers x) (length layers - 1)
        = Some (sequential layers x)).
Proof.
  rewrite get_features_values; split; [|split; [|split]].
  - now rewrite length_map, length_seq.
  - intros i Hi Hn; rewrite nth_error_map, nth_error_seq, ?Nat.add_0_l.
    destruct (Nat.ltb_spec i (length layers)); [|lia]; cbn [option_map]; f_equal.
    unfold feature_value.
    destruct (skipn (S i) layers) as [|l rest] eqn:E; cbn [inplace_run];
      [rewrite Nat.add_0_r; reflexivity|].
    assert (Hl : nth_error layers (S i) = Some l).
    { rewrite <- (firstn_skipn (S i) layers), E, nth_error_app2;
        rewrite length_firstn; [|lia].
      replace (S i - Nat.min (S i) (length layers))%nat with 0%nat by lia.
      reflexivity. }
    rewrite (Hn l Hl), Nat.add_0_r; reflexivity.
  - intros i l Hl Hin.
    assert (Hlt : (S i < length layers)%nat)
      by (apply nth_error_Some; congruence).
    rewrite !nth_error_map, !nth_error_seq, ?Nat.add_0_l.
    destruct (Nat.ltb_spec i (length layers)); [|lia].
    destruct (Nat.ltb_spec (S i) (length layers)); [|lia].
    cbn [option_map]; f_equal; unfold feature_value.
    rewrite <- (firstn_skipn (S i) layers) in Hl.
    rewrite nth_error_app2 in Hl by (rewrite length_firstn; lia).
    rewrite length_firstn in Hl.
    replace (S i - Nat.min (S i) (length layers))%nat with 0%nat in Hl by lia.
    destruct (skipn (S i) layers) as [|l' rest] eqn:E; [discriminate|].
    cbn in Hl; inversion Hl; subst l'.
    cbn [inplace_run]; rewrite Hin.
    replace (skipn (S (S i)) layers) with rest.
    + f_equal; f_equal; lia.
    + change (S (S i)) with (1 + S i)%nat.
      rewrite <- skipn_skipn, E; reflexivity.
  - intros Hne; rewrite nth_error_map, nth_error_seq, ?Nat.add_0_l.
    destruct layers as [|l rest]; [congruence|].
    cbn [length]; destruct (Nat.ltb_spec (S (length rest) - 1) (S (length rest)));
      [|lia]; cbn [option_map]; f_equal; unfold feature_value.
    replace (S (S (length rest) - 1)) with (length (l :: rest)) by (simpl; lia).
    rewrite skipn_all; cbn [inplace_run]; rewrite Nat.add_0_r, firstn_all.
    reflexivity.
Qed.

End FeaturesFacts.

(** Rows of [n] values each. *)
Definition rows_of (n : nat) (m : list (list R)) : Prop :=
  Forall (fun r => length r = n) m.

Lemma zip_with_rows (f : R -> R -> R) (n : nat) (a b : list (list R)) :
  length a = length b -> rows_of n a -> rows_of n b ->
  length (zip_with (zip_with f) a b) = length b
  /\ rows_of n (zip_with (zip_with f) a b).
Proof.
  unfold rows_of; revert b; induction a as [|ra a IH]; intros [|rb b] Hl Ha Hb;
    simpl in *; try discriminate; [split; auto|].
  inversion Ha; inversion Hb; subst.
  destruct (IH b) as [IH1 IH2]; auto.
  split; [now rewrite IH1|constructor; auto].
  rewrite zip_with_length; congruence.
Qed.

Lemma zip_with_zero_left (ra rb : list R) :
  length ra = length rb -> zip_with (fun o xi => 0 * o + xi) ra rb = rb.
Proof.
  revert rb; induction ra as [|a ra IH]; intros [|b rb] Hl; simpl in *;
    try discriminate; auto.
  rewrite IH by congruence; f_equal; ring.
Qed.

Lemma zip_with_zero_rows (n : nat) (out x : list (list R)) :
  length out = length x -> rows_of n out -> rows_of n x ->
  zip_with (zip_with (fun o xi => 0 * o + xi)) out x = x.
Proof.
  unfold rows_of; revert out; induction x as [|rx x IH]; intros [|ro out] Hl Ho Hx;
    simpl in *; try discriminate; auto.
  inversion Ho; inversion Hx; subst.
  rewrite zip_with_zero_left by congruence.
  f_equal; apply IH; auto.
Qed.

Lemma matmul_rows (a b : list (list R)) (n : nat) :
  length (matmul a b n) = length a /\ rows_of n (matmul a b n).
Proof.
  unfold matmul, rows_of; split; [now rewrite length_map|].
  apply Forall_map, Forall_forall; intros; now rewrite length_map, length_seq.
Qed.

Lemma apply_conv1x1_rows (cv : conv1x1) (x : list (list R)) (n : nat) :
  length (weight cv) = length (bias cv) ->
  length (apply_conv1x1 cv x n) = length (weight cv)
  /\ rows_of n (apply_conv1x1 cv x n).
Proof.
  unfold apply_conv1x1, rows_of; generalize (weight cv) (bias cv).
  intros ws; induction ws as [|wr ws IH]; intros [|bo bs] Hl; simpl in *;
    try discriminate; [split; auto|].
  destruct (IH bs) as [IH1 IH2]; [congruence|].
  split; [congruence|constructor; auto].
  now rewrite length_map, length_seq.
Qed.

Lemma self_attention_out_rows (query key value : conv1x1) (x : list (list R)) (n : nat) :
  length (weight value) = length x -> length (bias value) = length x ->
  let out := matmul (apply_conv1x1 value x n)
                    (transpose n (attention_map query key x n)) n in
  length out = length x /\ rows_of n out.
Proof.
  intros Hw Hb out.
  destruct (apply_conv1x1_rows value x n) as [H1 _]; [congruence|].
  destruct (matmul_rows (apply_conv1x1 value x n)
              (transpose n (attention_map query key x n)) n) as [H2 H3].
  split; [unfold out; congruence|exact H3].
Qed.

(** X4: for a sample of C rows of N values and a value projection with C
    output channels, the attention block returns C rows of N values, the
    shape of its input, whatever [gamma]. *)
Theorem self_attention_shape (query key value : conv1x1) (gamma : R)
  (x : list (list R)) (n : nat) :
  rows_of n x -> length (weight value) = length x -> length (bias value) = length x ->
  length (self_attention query key value gamma x n) = length x
  /\ rows_of n (self_attention query key value gamma x n).
Proof.
  intros Hx Hw Hb.
  destruct (self_attention_out_rows query key value x n Hw Hb) as [H1 H2].
  exact (zip_with_rows _ n _ x H1 H2 Hx).
Qed.

(** X5: with [gamma] at its initial value 0 the attention block is the
    identity on its input. *)
Theorem self_attention_gamma_init (query key value : conv1x1)
  (x : list (list R)) (n : nat) :
  rows_of n x -> length (weight value) = length x -> length (bias value) = length x ->
  self_attention query key value gamma_init x n = x.
Proof.
  intros Hx Hw Hb.
  destruct (self_attention_out_rows query key value x n Hw Hb) as [H1 H2].
  unfold self_attention, gamma_init.
  exact (zip_with_zero_rows n _ x H1 H2 Hx).
Qed.

Lemma sumR_map_div (l : list R) (d : R) :
  sumR (map (fun e => e / d) l) = sumR l / d.
Proof.
  unfold sumR; induction l as [|a l IH]; simpl; [unfold Rdiv; ring|].
  rewrite IH; unfold Rdiv; ring.
Qed.

Lemma sumR_exp_pos (row : list R) : row <> [] -> 0 < sumR (map exp row).
Proof.
  unfold sumR; induction row as [|a row IH]; intros Hne; [congruence|].
  simpl; pose proof (exp_pos a).
  destruct row as [|b row]; simpl; [lra|].
  assert (0 < fold_right Rplus 0 (map exp (b :: row))) by (apply IH; discriminate).
  simpl in *; lra.
Qed.

Lemma softmax_distribution (row : list R) :
  row <> [] ->
  length (softmax row) = length row
  /\ Forall (fun a => 0 < a) (softmax row) /\ sumR (softmax row) = 1.
Proof.
  intros Hne; pose proof (sumR_exp_pos row Hne) as Hs.
  unfold softmax; split; [|split].
  - now rewrite !length_map.
  - apply Forall_map, Forall_map, Forall_forall; intros a _.
    apply Rdiv_lt_0_compat; [apply exp_pos|exact Hs].
  - rewrite sumR_map_div; field; lra.
Qed.

(** X6: for N >= 1 positions the attention map is N x N and each of its
    rows is a probability distribution: positive weights summing to 1. *)
Theorem attention_map_rows (query key : conv1x1) (x : list (list R)) (n : nat) :
  (1 <= n)%nat ->
  length (attention_map query key x n) = n
  /\ Forall (fun row => length row = n /\ Forall (fun a => 0 < a) row /\ sumR row = 1)
            (attention_map query key x n).
Proof.
  intros Hn; unfold attention_map.
  set (pq := transpose n (apply_conv1x1 query x n)).
  set (pk := apply_conv1x1 key x n).
  destruct (matmul_rows pq pk n) as [H1 H2].
  assert (Hpq : length pq = n) by (unfold pq, transpose; now rewrite length_map, length_seq).
  split; [rewrite length_map; congruence|].
  apply Forall_map; unfold rows_of in H2; eapply Forall_impl; [|exact H2].
  intros row Hr; simpl in Hr.
  assert (Hne : row <> []) by (intros ->; simpl in Hr; lia).
  destruct (softmax_distribution row Hne) as (L & P & S); rewrite L; auto.
Qed.

End ArchitectureFacts.

Module SamplesFacts.
Import Samples.

(** X7: [choose_random_sample] returns (None, None) exactly when no entry
    of the directory listing is a regular file. *)
Theorem choose_random_sample_none (audio_data_dir : string) (listing : list dir_entry)
  (randbelow : nat -> nat) :
  choose_random_sample audio_data_dir listing randbelow = Ok (None, None)
  <-> (forall e, In e listing -> entry_is_file e = false).
Proof.
  unfold choose_random_sample; split.
  - destruct (filter entry_is_file listing) as [|e0 rest] eqn:E.
    + intros _ e He; destruct (entry_is_file e) eqn:F; [|reflexivity].
      assert (In e (filter entry_is_file listing)) by (apply filter_In; auto).
      rewrite E in *; contradiction.
    + cbn [map]; destruct (nth_error _ _); discriminate.
  - intros Hf.
    replace (filter entry_is_file listing) with (@nil dir_entry); [reflexivity|].
    symmetry; induction listing as [|e listing IH]; [reflexivity|].
    cbn [filter]; rewrite (Hf e (or_introl eq_refl)).
    apply IH; intros e' He'; apply Hf; now right.
Qed.

(** X8: when the listing has a regular file and [random.choice] picks an
    index in range, [choose_random_sample] does not raise: it returns the
    name of a regular file of the listing together with that name joined to
    the directory. *)
Theorem choose_random_sample_some (audio_data_dir : string) (listing : list dir_entry)
  (randbelow : nat -> nat) :
  (forall k, (0 < k)%nat -> (randbelow k < k)%nat) ->
  (exists e, In e listing /\ entry_is_file e = true) ->
  exists e, In e listing /\ entry_is_file e = true
    /\ choose_random_sample audio_data_dir listing randbelow
       = Ok (Some (path_join audio_data_dir (entry_name e)), Some (entry_name e)).
Proof.
  intros Hr (e0 & He0 & Hf0).
  unfold choose_random_sample.
  assert (Hin : In e0 (filter entry_is_file listing)) by (apply filter_In; auto).
  set (files := filter entry_is_file listing) in *.
  assert (Hlt : (randbelow (length files) < length files)%nat)
    by (apply Hr; destruct files; simpl in *; [contradiction|lia]).
  destruct (nth_error files (randbelow (length files))) as [e|] eqn:E;
    [|apply nth_error_None in E; lia].
  assert (He : In e files) by (eapply nth_error_In; exact E).
  unfold files in He; apply filter_In in He as [He Hf].
  exists e; split; [exact He|split; [exact Hf|]].
  destruct files as [|f rest]; [contradiction|].
  rewrite length_map, nth_error_map, E; reflexivity.
Qed.

End SamplesFacts.

(** ** Training: parameters, random draws and failures *)

Lemma same_length_app {A} (x y a b : list A) :
  length x = length y -> x ++ a = y ++ b -> x = y /\ a = b.
Proof.
  revert y; induction x as [|u x IH]; intros [|v y] Hl H; simpl in *;
    try discriminate; auto.
  inversion H; subst; destruct (IH y) as [-> ->]; auto.
Qed.

Lemma flatten_inj (a b : list (list R)) :
  same_shape a b -> flatten a = flatten b -> a = b.
Proof.
  unfold flatten; induction 1 as [|x y a b Hxy _ IH]; simpl; auto.
  intros H; destruct (same_length_app _ _ _ _ Hxy H) as [-> H'].
  now rewrite IH.
Qed.

Lemma zip_with_minus_zero (u v : list R) :
  length u = length v -> Forall (fun d => d = 0) (zip_with Rminus u v) -> u = v.
Proof.
  revert v; induction u as [|a u IH]; intros [|b v] Hl H; simpl in *;
    try discriminate; auto.
  inversion H; subst; f_equal; [lra|apply IH; auto].
Qed.

Lemma flatten_length (a b : list (list R)) :
  same_shape a b -> length (flatten a) = length (flatten b).
Proof.
  unfold flatten; induction 1; simpl; auto.
  rewrite !length_app; lia.
Qed.

Lemma same_shape_refl (a : list (list R)) : same_shape a a.
Proof. unfold same_shape; induction a; constructor; auto. Qed.

Lemma sumR_nonneg (l : list R) : Forall (fun v => 0 <= v) l -> 0 <= sumR l.
Proof.
  unfold sumR; induction 1; simpl; lra.
Qed.

Lemma sumR_nonneg_zero (l : list R) :
  Forall (fun v => 0 <= v) l -> sumR l = 0 -> Forall (fun v => v = 0) l.
Proof.
  unfold sumR; induction 1 as [|v l Hv Hl IH]; simpl; intros H; auto.
  pose proof (sumR_nonneg l Hl) as Hs; unfold sumR in Hs.
  constructor; [lra|apply IH; lra].
Qed.

Lemma mean_nonneg (l : list R) : Forall (fun v => 0 <= v) l -> 0 <= mean l.
Proof.
  intros H; unfold mean; pose proof (sumR_nonneg l H).
  destruct l as [|x l]; [unfold Rdiv; simpl; rewrite Rinv_0; lra|].
  unfold Rdiv; apply Rmult_le_pos; [lra|].
  left; apply Rinv_0_lt_compat, lt_0_INR; simpl; lia.
Qed.

Lemma mean_zero (l : list R) :
  l <> [] -> Forall (fun v => 0 <= v) l -> mean l = 0 -> Forall (fun v => v = 0) l.
Proof.
  intros Hne H Hm; apply sumR_nonneg_zero; auto.
  unfold mean in Hm.
  assert (0 < INR (length l)) by (destruct l; [congruence|apply lt_0_INR; simpl; lia]).
  apply (f_equal (fun v => v * INR (length l))) in Hm.
  unfold Rdiv in Hm; rewrite Rmult_assoc, Rinv_l, Rmult_1_r in Hm; lra.
Qed.

Lemma Forall_abs_zero (l : list R) :
  Forall (fun v => v = 0) (map Rabs l) -> Forall (fun v => v = 0) l.
Proof.
  induction l as [|v l IH]; simpl; intros H; auto.
  inversion H; subst; constructor; auto.
  destruct (Req_dec v 0) as [|Hv]; auto.
  apply Rabs_no_R0 in Hv; contradiction.
Qed.

Lemma sumR_zeros (l : list R) : Forall (fun v => v = 0) l -> sumR l = 0.
Proof. unfold sumR; induction 1; simpl; auto; subst; lra. Qed.

Lemma mv_nonempty (u v : list R) :
  u <> [] -> length u = length v -> map Rabs (zip_with Rminus u v) <> [].
Proof. destruct u, v; simpl; congruence. Qed.

Lemma Forall_abs_nonneg (l : list R) : Forall (fun v => 0 <= v) (map Rabs l).
Proof. apply Forall_map, Forall_forall; intros; apply Rabs_pos. Qed.

Lemma spectral_diff_facts (real fake : list (list R)) :
  same_shape real fake -> flatten real <> [] ->
  0 <= calculate_spectral_diff real fake
  /\ calculate_spectral_diff real fake = calculate_spectral_diff fake real
  /\ (calculate_spectral_diff real fake = 0 <-> real = fake).
Proof.
  intros Hs Hne.
  pose proof (same_shape_sym _ _ Hs) as Hs'.
  unfold calculate_spectral_diff; rewrite !mean_singleton.
  split; [|split].
  - apply mean_nonneg, Forall_abs_nonneg.
  - rewrite (flatten_bsub _ _ Hs), (flatten_bsub _ _ Hs').
    f_equal; rewrite !map_zip_with.
    generalize (flatten_length _ _ Hs); generalize (flatten real) (flatten fake).
    intros u; induction u as [|a u IH]; intros [|b v] Hl; simpl in *; auto.
    rewrite IH by congruence; f_equal; apply Rabs_minus_sym.
  - split.
    + intros H0; apply flatten_inj; auto.
      rewrite (flatten_bsub _ _ Hs) in H0.
      assert (Hl : length (flatten real) = length (flatten fake))
        by (apply flatten_length; auto).
      apply mean_zero in H0; [|apply mv_nonempty; auto|apply Forall_abs_nonneg].
      apply Forall_abs_zero in H0.
      eapply zip_with_minus_zero; [exact Hl|exact H0].
    + intros ->; unfold mean.
      rewrite sumR_zeros; [unfold Rdiv; ring|].
      apply Forall_map; eapply Forall_impl; [|apply bsub_self_zero].
      intros v ->; apply Rabs_R0.
Qed.

(** X9: for batches of the same shape with at least one value,
    [calculate_spectral_diff] is non-negative, symmetric in its two
    arguments, and 0 exactly when the two batches are equal. *)
Theorem spectral_diff_metric (real fake : list (list R)) :
  same_shape real fake -> flatten real <> [] ->
  0 <= calculate_spectral_diff real fake
  /\ calculate_spectral_diff real fake = calculate_spectral_diff fake real
  /\ (calculate_spectral_diff real fake = 0 <-> real = fake).
Proof. apply spectral_diff_facts. Qed.

Lemma squares_nonneg (l : list R) : Forall (fun v => 0 <= v) (map (fun v => v * v) l).
Proof.
  apply Forall_map, Forall_forall; intros v _; pose proof (Rle_0_sqr v);
    unfold Rsqr in *; lra.
Qed.

Lemma norm2_zero (l : list R) : norm2 l = 0 -> Forall (fun v => v = 0) l.
Proof.
  unfold norm2; intros H.
  apply sqrt_eq_0 in H; [|apply sumR_nonneg, squares_nonneg].
  apply sumR_nonneg_zero in H; [|apply squares_nonneg].
  apply Forall_map in H; eapply Forall_impl; [|exact H].
  intros v Hv; simpl in Hv; nra.
Qed.

Lemma spectral_convergence_facts (real fake : list (list R)) :
  0 <= calculate_spectral_convergence real fake
  /\ (same_shape real fake ->
      calculate_spectral_convergence real fake = 0 <-> real = fake).
Proof.
  assert (Hd : 0 < norm2 (flatten real) + 1e-8)
    by (pose proof (norm2_nonneg (flatten real)); lra).
  unfold calculate_spectral_convergence; split.
  - unfold Rdiv; apply Rmult_le_pos; [apply norm2_nonneg|].
    left; apply Rinv_0_lt_compat; exact Hd.
  - intros Hs; split.
    + intros H0.
      assert (Hn : norm2 (flatten (bsub fake real)) = 0).
      { apply (f_equal (fun v => v * (norm2 (flatten real) + 1e-8))) in H0.
        unfold Rdiv in H0; rewrite Rmult_assoc, Rinv_l, Rmult_1_r in H0; lra. }
      apply norm2_zero in Hn.
      rewrite (flatten_bsub _ _ (same_shape_sym _ _ Hs)) in Hn.
      symmetry; apply flatten_inj; [apply same_shape_sym; auto|].
      eapply zip_with_minus_zero; [|exact Hn].
      symmetry; apply flatten_length; auto.
    + intros ->; unfold norm2 at 1.
      rewrite (sumR_squares_zero _ (bsub_self_zero fake)), sqrt_0.
      unfold Rdiv; ring.
Qed.

(** X10: [calculate_spectral_convergence] is never negative, and for
    batches of the same shape it is 0 exactly when the two batches are
    equal. *)
Theorem spectral_convergence_zero (real fake : list (list R)) :
  0 <= calculate_spectral_convergence real fake
  /\ (same_shape real fake ->
      calculate_spectral_convergence real fake = 0 <-> real = fake).
Proof. apply spectral_convergence_facts. Qed.

Lemma keeps_bind {GP DP A B} (m : M GP DP A) (k : A -> M GP DP B) :
  keeps_params m -> (forall a, keeps_params (k a)) -> keeps_params (bind m k).
Proof.
  intros Hm Hk s b s' H.
  apply bind_ok in H as (a & s1 & H1 & H2).
  destruct (Hm _ _ _ H1) as [G1 D1]; destruct (Hk _ _ _ _ H2) as [G2 D2].
  split; congruence.
Qed.

Ltac prim_keeps :=
  let s := fresh "s" in let a := fresh "a" in let s' := fresh "s'" in
  let H := fresh "H" in
  intros s a s' H; inversion H; subst; clear H; split; reflexivity.

Lemma keeps_ret {GP DP A} (a : A) : keeps_params (@ret GP DP A a).
Proof. prim_keeps. Qed.

Lemma keeps_raise {GP DP A} e : keeps_params (@raise GP DP A e).
Proof. intros s a s' H; discriminate. Qed.

Lemma keeps_emit {GP DP} ev : keeps_params (@emit GP DP ev).
Proof. prim_keeps. Qed.

Lemma keeps_get_grad {GP DP} : keeps_params (@get_grad GP DP).
Proof. prim_keeps. Qed.

Lemma keeps_set_grad {GP DP} g : keeps_params (@set_grad GP DP g).
Proof. prim_keeps. Qed.

Lemma keeps_py_div {GP DP} x n : keeps_params (@py_div GP DP x n).
Proof.
  unfold py_div; destruct (Nat.eqb n 0); [apply keeps_raise|apply keeps_ret].
Qed.

Lemma keeps_randn {GP DP} normal n : keeps_params (@randn GP DP normal n).
Proof. prim_keeps. Qed.

Lemma keeps_generator {GP DP} gen_fwd z : keeps_params (@generator GP DP gen_fwd z).
Proof. prim_keeps. Qed.

Lemma keeps_discriminator {GP DP} disc_fwd x :
  keeps_params (@discriminator GP DP disc_fwd x).
Proof. prim_keeps. Qed.

Create HintDb keeps.
#[local] Hint Resolve keeps_ret keeps_raise keeps_emit keeps_get_grad keeps_set_grad
  keeps_py_div keeps_randn keeps_generator keeps_discriminator : keeps.

Ltac keeps_tac :=
  repeat first
    [ solve [eauto with keeps]
    | apply keeps_bind; [|intro; cbv beta]
    | match goal with
      | |- keeps_params (if ?c then _ else _) => destruct c
      | |- keeps_params (let (_, _) := ?p in _) => destruct p
      end ].

Lemma keeps_accumulate {GP DP} step dataloader tg td :
  (forall b, keeps_params (step b)) ->
  keeps_params (@accumulate GP DP step dataloader tg td).
Proof.
  intros Hs; revert tg td; induction dataloader as [|b rest IH]; intros tg td;
    simpl; keeps_tac.
Qed.

Lemma keeps_plot_examples {GP DP} generated_audio epoch idx :
  keeps_params (@plot_examples GP DP generated_audio epoch idx).
Proof.
  induction idx as [|i rest IH]; simpl; [apply keeps_ret|].
  destruct (nth_error generated_audio i); keeps_tac.
Qed.

Lemma keeps_compute_discrim_loss {GP DP} disc_fwd criterion x y rl fl :
  keeps_params (@compute_discrim_loss GP DP disc_fwd criterion x y rl fl).
Proof. unfold compute_discrim_loss; keeps_tac. Qed.

#[local] Hint Resolve keeps_accumulate keeps_plot_examples keeps_compute_discrim_loss
  : keeps.

Lemma keeps_validate {GP DP} gen_fwd disc_fwd criterion normal dataloader :
  keeps_params (@validate GP DP gen_fwd disc_fwd criterion normal dataloader).
Proof.
  unfold validate, no_grad; keeps_tac.
  apply keeps_accumulate; intros b; unfold val_batch; keeps_tac.
Qed.

Lemma keeps_generate_examples {GP DP} gen_fwd normal epoch :
  keeps_params (@generate_examples GP DP gen_fwd normal epoch).
Proof. unfold generate_examples; keeps_tac. Qed.

Section TrainingFacts.

Context {GP DP : Type}.
Context {gen_fwd : GP -> list (list R) -> list (list R)}.
Context {disc_fwd : DP -> list (list R) -> list R}.
Context {criterion : list R -> list R -> R}.
Context {opt_G : GP -> GP} {opt_D : DP -> DP}.
Context {uniform normal : nat -> R}.

Local Abbreviation cdl := (@compute_discrim_loss GP DP disc_fwd criterion).
Local Abbreviation sl := (@smooth_labels GP DP uniform).

(** X11: on real and fake batches of the same shape with at least one
    value, the loss [compute_discrim_loss] returns is never below the
    average of the two adversarial terms, and equals it exactly when the
    fake batch equals the real one: the spectral terms only add a penalty
    for the difference. *)
Theorem compute_discrim_loss_penalty (x y : tensor) (rl fl : list R) (s : St GP DP) :
  same_shape (tdata x) (tdata y) -> flatten (tdata x) <> [] ->
  let d_adv_loss := (criterion (disc_fwd (dp s) (tdata x)) rl
                     + criterion (disc_fwd (dp s) (tdata y)) fl) / 2 in
  exists d_loss s',
    cdl x y rl fl s = Ok (d_loss, s')
    /\ d_adv_loss <= d_loss
    /\ (d_loss = d_adv_loss <-> tdata x = tdata y).
Proof.
  intros Hs Hne adv.
  rewrite compute_discrim_loss_run.
  do 2 eexists; split; [reflexivity|].
  destruct (spectral_diff_facts _ _ Hs Hne) as (D0 & _ & Dz).
  destruct (spectral_convergence_facts (tdata x) (tdata y)) as (C0 & Cz).
  specialize (Cz Hs).
  unfold discrim_loss_value, view, adv; split; [lra|].
  split.
  - intros H; apply Dz; lra.
  - intros H; rewrite H in *.
    assert (calculate_spectral_diff (tdata y) (tdata y) = 0) by (apply Dz; auto).
    assert (calculate_spectral_convergence (tdata y) (tdata y) = 0) by (apply Cz; auto).
    lra.
Qed.

Local Abbreviation tb :=
  (@train_batch GP DP gen_fwd disc_fwd criterion opt_G opt_D uniform normal).
Local Abbreviation te :=
  (@train_epoch GP DP gen_fwd disc_fwd criterion opt_G opt_D uniform normal).
Local Abbreviation vb := (@val_batch GP DP gen_fwd disc_fwd criterion normal).
Local Abbreviation va := (@validate GP DP gen_fwd disc_fwd criterion normal).
Local Abbreviation dlv := (@discrim_loss_value DP disc_fwd criterion).

(** X12: on a non-empty tensor [smooth_labels] returns a tensor of the same
    length and consumes exactly one uniform draw per entry, changing
    nothing else in the state. *)
Theorem smooth_labels_length (t : list R) (s : St GP DP) :
  t <> [] ->
  exists t', sl t s = Ok (t', advance (length t) s) /\ length t' = length t.
Proof.
  intros Hne; destruct t as [|x rest]; [congruence|].
  unfold smooth_labels, bind, rand_like, ret.
  destruct (Req_dec_T x 1); eexists; (split; [reflexivity|]);
    rewrite zip_with_length; rewrite ?draws_length; reflexivity.
Qed.

(** X13: with autograd enabled, one training step on a non-empty batch of
    B samples computes the generator loss from the discriminator's
    parameters before its update and the discriminator loss from both
    networks' parameters before their updates; it then leaves each network
    updated by exactly one optimizer step, the random-number stream
    advanced by 2 B uniform draws and B * LATENT_DIM normal draws, and
    autograd still enabled.  With autograd disabled the step raises
    RuntimeError at the generator's [backward]. *)
Theorem train_batch_step (b : list (list R)) (s : St GP DP) :
  b <> [] ->
  let B := length b in
  let real_labels := zip_with (fun a u => a + 0.02 * u) (ones B)
                              (draws uniform (rng s) B) in
  let fake_labels := zip_with (fun a u => a - 0.02 * u) (zeros B)
                              (draws uniform (rng s + B) B) in
  let fake := gen_fwd (gp s) (latent normal (rng s + B + B) B) in
  (grad s = true ->
   exists s',
     tb b s = Ok ((criterion (disc_fwd (dp s) fake) real_labels,
                   dlv (dp s) b fake real_labels fake_labels), s')
     /\ gp s' = opt_G (gp s) /\ dp s' = opt_D (dp s)
     /\ rng s' = (rng s + 2 * B + B * LATENT_DIM)%nat /\ grad s' = true)
  /\ (grad s = false -> tb b s = Err RuntimeError).
Proof.
  intros Hne B rl fl fake; split; intros Hg.
  - rewrite (train_batch_exec b s Hne Hg).
    eexists; split; [reflexivity|].
    cbn; repeat split; lia.
  - exact (train_batch_nograd b s Hne Hg).
Qed.

Lemma train_batch_params (b : list (list R)) (s s' : St GP DP) l :
  tb b s = Ok (l, s') -> gp s' = opt_G (gp s) /\ dp s' = opt_D (dp s).
Proof.
  destruct b as [|row b].
  - discriminate.
  - intros H.
    assert (Hne : row :: b <> []) by discriminate.
    destruct (grad s) eqn:Hg.
    + rewrite (train_batch_exec (row :: b) s Hne Hg) in H.
      inversion H; subst; cbn; auto.
    + rewrite (train_batch_nograd (row :: b) s Hne Hg) in H; discriminate.
Qed.

Lemma accumulate_app (step : list (list R) -> M GP DP (R * R)) pre post tg td
  (s : St GP DP) :
  accumulate step (pre ++ post) tg td s
  = match accumulate step pre tg td s with
    | Ok ((tg', td'), s') => accumulate step post tg' td' s'
    | Err e => Err e
    end.
Proof.
  revert tg td s; induction pre as [|b pre IH]; intros tg td s; [reflexivity|].
  simpl; unfold bind; destruct (step b s) as [[l s1]|e]; auto.
Qed.

Lemma accumulate_train_params dataloader tg td (s s' : St GP DP) a :
  accumulate tb dataloader tg td s = Ok (a, s') ->
  gp s' = Nat.iter (length dataloader) opt_G (gp s)
  /\ dp s' = Nat.iter (length dataloader) opt_D (dp s).
Proof.
  revert tg td s; induction dataloader as [|b rest IH]; intros tg td s H;
    simpl in H.
  - inversion H; subst; auto.
  - apply bind_ok in H as (l & s1 & E1 & H).
    destruct (train_batch_params _ _ _ _ E1) as [Hg Hd].
    destruct (IH _ _ _ H) as [Hg' Hd'].
    rewrite Hg', Hd', Hg, Hd, <- !Nat.iter_succ_r; auto.
Qed.

Lemma train_epoch_params_run (dataloader : list (list (list R))) (s s' : St GP DP) r :
  te dataloader s = Ok (r, s') ->
  gp s' = Nat.iter (length dataloader) opt_G (gp s)
  /\ dp s' = Nat.iter (length dataloader) opt_D (dp s).
Proof.
  intros H; unfold train_epoch in H.
  apply bind_ok in H as (u1 & s1 & E1 & H); inversion E1; subst u1 s1; clear E1.
  apply bind_ok in H as (u2 & s2 & E2 & H); inversion E2; subst u2 s2; clear E2.
  apply bind_ok in H as (tot & s3 & E3 & H).
  apply bind_ok in H as (g & s4 & E4 & H); apply py_div_state in E4; subst s4.
  apply bind_ok in H as (d & s5 & E5 & H); apply py_div_state in E5; subst s5.
  inversion H; subst s'; clear H.
  apply accumulate_train_params in E3; exact E3.
Qed.

(** X14: a successful [train_epoch] over K batches applies exactly K
    optimizer steps to each network. *)
Theorem train_epoch_params (dataloader : list (list (list R))) (s s' : St GP DP) r :
  te dataloader s = Ok (r, s') ->
  gp s' = Nat.iter (length dataloader) opt_G (gp s)
  /\ dp s' = Nat.iter (length dataloader) opt_D (dp s).
Proof. apply train_epoch_params_run. Qed.

(** X15: with autograd enabled, [train_epoch] raises IndexError (from
    [smooth_labels], on a batch of size 0) as soon as it reaches an empty
    batch, even after successful steps on the non-empty batches before
    it. *)
Theorem train_epoch_empty_batch (pre post : list (list (list R))) (s : St GP DP) :
  grad s = true -> Forall (fun b => b <> []) pre ->
  te (pre ++ [] :: post) s = Err IndexError.
Proof.
  intros Hg Hpre.
  unfold train_epoch, bind at 1 2; unfold emit at 1 2.
  unfold bind at 1; rewrite accumulate_app, accumulate_sum.
  destruct (batch_losses_train_ok (gen_fwd := gen_fwd) (disc_fwd := disc_fwd)
              (criterion := criterion) (opt_G := opt_G) (opt_D := opt_D)
              (uniform := uniform) (normal := normal)
              pre (log (ETrain Disc) (log (ETrain Gen) s)) Hg Hpre)
    as (ls & s' & E & _).
  rewrite E; reflexivity.
Qed.

Lemma val_batch_ok (b : list (list R)) (s : St GP DP) :
  exists l s', vb b s = Ok (l, s').
Proof.
  unfold val_batch, bind, randn, generator, discriminator, compute_discrim_loss, ret.
  do 2 eexists; reflexivity.
Qed.

Lemma batch_losses_val_ok (dataloader : list (list (list R))) (s : St GP DP) :
  exists ls s', batch_losses vb dataloader s = Ok (ls, s').
Proof.
  revert s; induction dataloader as [|b rest IH]; intros s; simpl.
  - do 2 eexists; reflexivity.
  - unfold bind at 1; destruct (val_batch_ok b s) as (l & s1 & E); rewrite E.
    destruct (IH s1) as (ls & s' & E'); unfold bind; rewrite E'.
    do 2 eexists; reflexivity.
Qed.

(** X16: [validate] on a non-empty dataloader of non-empty batches does
    not raise: it returns the mean of the per-batch generator and
    discriminator losses, computed with autograd disabled, and restores the
    autograd mode it found. *)
Theorem validate_means (dataloader : list (list (list R))) (s : St GP DP) :
  dataloader <> [] -> Forall (fun b => b <> []) dataloader ->
  exists ls s',
    batch_losses vb dataloader (with_grad false (log (EEval Disc) (log (EEval Gen) s)))
    = Ok (ls, s')
    /\ va dataloader s
       = Ok ((sumR (map fst ls) / INR (length dataloader),
              sumR (map snd ls) / INR (length dataloader)), with_grad (grad s) s')
    /\ length ls = length dataloader.
Proof.
  intros Hne _.
  destruct (batch_losses_val_ok dataloader
              (with_grad false (log (EEval Disc) (log (EEval Gen) s))))
    as (ls & s' & E).
  exists ls, s'; split; [exact E|split; [|eapply batch_losses_length; eauto]].
  unfold validate, bind at 1 2; unfold emit at 1 2.
  unfold bind at 1; unfold no_grad, bind at 1 2; unfold get_grad at 1, set_grad at 1.
  unfold bind at 1; rewrite accumulate_sum, E.
  unfold bind, set_grad, py_div, ret, raise.
  destruct (Nat.eqb_spec (length dataloader) 0) as [Hz|_];
    [destruct dataloader; simpl in Hz; congruence|].
  simpl; do 4 f_equal; ring.
Qed.

Local Abbreviation eb :=
  (@epoch_body GP DP gen_fwd disc_fwd criterion opt_G opt_D uniform normal).
Local Abbreviation re :=
  (@run_epochs GP DP gen_fwd disc_fwd criterion opt_G opt_D uniform normal).
Local Abbreviation tloop :=
  (@training_loop GP DP gen_fwd disc_fwd criterion opt_G opt_D uniform normal).

Lemma epoch_body_params train_loader val_loader epoch (s s' : St GP DP) u :
  eb train_loader val_loader epoch s = Ok (u, s') ->
  gp s' = Nat.iter (length train_loader) opt_G (gp s)
  /\ dp s' = Nat.iter (length train_loader) opt_D (dp s).
Proof.
  intros H; unfold epoch_body in H.
  apply bind_ok in H as (x & s1 & E1 & H).
  destruct (train_epoch_params_run _ _ _ _ E1) as [G1 D1].
  apply bind_ok in H as (y & s2 & E2 & H).
  assert (Hmid : keeps_params (GP := GP) (DP := DP)
    (if Nat.eqb ((epoch + 1) mod VALIDATION_INTERVAL) 0 then
       _ <- va val_loader;; @generate_examples GP DP gen_fwd normal epoch
     else ret tt)).
  { destruct (Nat.eqb _ 0); [apply keeps_bind; intros;
      [apply keeps_validate|apply keeps_generate_examples]|apply keeps_ret]. }
  destruct (Hmid _ _ _ E2) as [G2 D2].
  assert (Hend : keeps_params (GP := GP) (DP := DP)
    (if Nat.eqb ((epoch + 1) mod SAVE_INTERVAL) 0 then
       emit (ESave Gen "DCGAN"%string) else ret tt))
    by (destruct (Nat.eqb ((epoch + 1) mod SAVE_INTERVAL) 0);
        [apply keeps_emit|apply keeps_ret]).
  destruct (Hend _ _ _ H) as [G3 D3].
  split; congruence.
Qed.

Lemma run_epochs_params train_loader val_loader epochs (s s' : St GP DP) u :
  re train_loader val_loader epochs s = Ok (u, s') ->
  gp s' = Nat.iter (length epochs * length train_loader) opt_G (gp s)
  /\ dp s' = Nat.iter (length epochs * length train_loader) opt_D (dp s).
Proof.
  revert s; induction epochs as [|e rest IH]; intros s H; simpl in H.
  - inversion H; subst; auto.
  - apply bind_ok in H as (x & s1 & E1 & H).
    destruct (epoch_body_params _ _ _ _ _ _ E1) as [G1 D1].
    destruct (IH _ H) as [G2 D2].
    cbn [length]; rewrite Nat.mul_succ_l, !Nat.iter_add, G2, D2, G1, D1; auto.
Qed.

(** X17: a successful [training_loop] updates each network by exactly
    N_EPOCHS times (number of training batches) optimizer steps; the
    validation passes and the example generation between epochs change no
    parameter. *)
Theorem training_loop_params (train_loader val_loader : list (list (list R)))
  (s s' : St GP DP) u :
  tloop train_loader val_loader s = Ok (u, s') ->
  gp s' = Nat.iter (N_EPOCHS * length train_loader) opt_G (gp s)
  /\ dp s' = Nat.iter (N_EPOCHS * length train_loader) opt_D (dp s).
Proof.
  intros H; unfold training_loop in H.
  apply run_epochs_params in H; rewrite length_seq in H; exact H.
Qed.

Local Abbreviation ge := (@generate_examples GP DP gen_fwd normal).

(** X18: after a validation pass, [training_loop] draws 3 latent vectors,
    runs the generator once on them and plots examples 1, 2 and 3 labelled
    with epoch + 1, in that order, provided the generator returns at least
    3 samples (as the repository's Generator does for 3 latent vectors). *)
Theorem generate_examples_plots (epoch : nat) (s : St GP DP) :
  let z := latent normal (rng s) 3 in
  let generated_audio := gen_fwd (gp s) z in
  (3 <= length generated_audio)%nat ->
  ge epoch s
  = Ok (tt, mkSt (gp s) (dp s) (rng s + 3 * LATENT_DIM)%nat (grad s)
              (trace s ++ [EForward Gen (grad s) (mkT z false);
                           EPlot 1 (epoch + 1); EPlot 2 (epoch + 1);
                           EPlot 3 (epoch + 1)])).
Proof.
  destruct s as [g d pos gr tr]; cbv zeta; cbn [gp dp rng grad trace].
  remember (latent normal pos 3) as z eqn:Ez.
  cbv beta iota zeta delta [generate_examples bind randn generator advance log ret];
    cbn [gp dp rng grad trace tdata].
  rewrite <- Ez.
  remember (gen_fwd g z) as out eqn:Eo; clear Eo.
  destruct out as [|a [|b [|c rest]]]; cbn [length]; intros H;
    try (exfalso; lia).
  cbn; unfold log; cbn; rewrite <- !app_assoc; reflexivity.
Qed.

End TrainingFacts.

(** ** Witnesses for the further properties *)

Lemma generator_output_shape_witness :
  (1 <= 1)%Z /\ (1 <= 1)%Z /\ (0 < 256)%Z /\ (0 < 128)%Z
  /\ Architecture.sequential_shape (Architecture.generator_layers 2 256 128)
       (Architecture.CHW Architecture.LATENT_DIM_Z 1 1)
     = Some (Architecture.CHW 2 256 128).
Proof.
  assert (H1 : (1 <= 1)%Z) by lia. assert (H2 : (0 < 256)%Z) by lia.
  assert (H3 : (0 < 128)%Z) by lia.
  split; [exact H1|split; [exact H1|split; [exact H2|split; [exact H3|]]]].
  exact (proj1 (proj2 (ArchitectureFacts.generator_output_shape 2 256 128 1 1
                         H1 H1 H2 H3))).
Defined.

Lemma discriminator_output_shape_witness :
  (1 <= 1)%Z /\ (1 <= 3)%Z
  /\ Architecture.sequential_shape (Architecture.discriminator_layers 2)
       (Architecture.CHW 2 1 3) = Some (Architecture.Flat 1).
Proof.
  assert (H1 : (1 <= 1)%Z) by lia. assert (H3 : (1 <= 3)%Z) by lia.
  split; [exact H1|split; [exact H3|]].
  exact (proj1 (ArchitectureFacts.discriminator_output_shape 2 1 3 H1 H3)).
Defined.

Definition wx : list (list R) := [[1; 2]; [3; 4]].
Definition wq : Architecture.conv1x1 :=
  {| Architecture.weight := [[1; 0]]; Architecture.bias := [0] |}.
Definition wv : Architecture.conv1x1 :=
  {| Architecture.weight := [[1; 0]; [0; 1]]; Architecture.bias := [0; 0] |}.

Lemma self_attention_shape_witness :
  ArchitectureFacts.rows_of 2 wx /\ length (Architecture.weight wv) = length wx
  /\ length (Architecture.bias wv) = length wx
  /\ length (Architecture.self_attention wq wq wv 1 wx 2) = length wx.
Proof.
  assert (Hx : ArchitectureFacts.rows_of 2 wx) by (repeat constructor).
  assert (Hw : length (Architecture.weight wv) = length wx) by reflexivity.
  assert (Hb : length (Architecture.bias wv) = length wx) by reflexivity.
  split; [exact Hx|split; [exact Hw|split; [exact Hb|]]].
  exact (proj1 (ArchitectureFacts.self_attention_shape wq wq wv 1 wx 2 Hx Hw Hb)).
Defined.

Lemma self_attention_gamma_init_witness :
  ArchitectureFacts.rows_of 2 wx /\ length (Architecture.weight wv) = length wx
  /\ length (Architecture.bias wv) = length wx
  /\ Architecture.self_attention wq wq wv Architecture.gamma_init wx 2 = wx.
Proof.
  assert (Hx : ArchitectureFacts.rows_of 2 wx) by (repeat constructor).
  assert (Hw : length (Architecture.weight wv) = length wx) by reflexivity.
  assert (Hb : length (Architecture.bias wv) = length wx) by reflexivity.
  split; [exact Hx|split; [exact Hw|split; [exact Hb|]]].
  exact (ArchitectureFacts.self_attention_gamma_init wq wq wv wx 2 Hx Hw Hb).
Defined.

Lemma attention_map_rows_witness :
  (1 <= 2)%nat /\ length (Architecture.attention_map wq wq wx 2) = 2%nat.
Proof.
  assert (H : (1 <= 2)%nat) by lia.
  split; [exact H|].
  exact (proj1 (ArchitectureFacts.attention_map_rows wq wq wx 2 H)).
Defined.

Definition wlisting : list Samples.dir_entry :=
  [ {| Samples.entry_name := "subdir"; Samples.entry_is_file := false |};
    {| Samples.entry_name := "kick.wav"; Samples.entry_is_file := true |} ].

Lemma choose_random_sample_some_witness :
  (forall k, (0 < k)%nat -> ((fun _ : nat => 0%nat) k < k)%nat)
  /\ (exists e, In e wlisting /\ Samples.entry_is_file e = true)
  /\ exists e, In e wlisting /\ Samples.entry_is_file e = true
       /\ Samples.choose_random_sample "data" wlisting (fun _ => 0%nat)
          = Ok (Some (Samples.path_join "data" (Samples.entry_name e)),
                Some (Samples.entry_name e)).
Proof.
  assert (Hr : forall k, (0 < k)%nat -> ((fun _ : nat => 0%nat) k < k)%nat)
    by (intros k Hk; exact Hk).
  assert (He : exists e, In e wlisting /\ Samples.entry_is_file e = true)
    by (eexists; split; [right; left; reflexivity|reflexivity]).
  split; [exact Hr|split; [exact He|]].
  exact (SamplesFacts.choose_random_sample_some "data" wlisting (fun _ => 0%nat) Hr He).
Defined.

Lemma spectral_diff_metric_witness :
  same_shape [[1; 2]] [[1; 5]] /\ flatten [[1; 2]] <> []
  /\ 0 <= calculate_spectral_diff [[1; 2]] [[1; 5]].
Proof.
  assert (Hs : same_shape [[1; 2]] [[1; 5]]) by (repeat constructor).
  assert (Hne : flatten [[1; 2]] <> []) by (simpl; discriminate).
  split; [exact Hs|split; [exact Hne|]].
  exact (proj1 (spectral_diff_metric _ _ Hs Hne)).
Defined.

Lemma compute_discrim_loss_penalty_witness :
  same_shape [[0]] [[1]] /\ flatten [[0]] <> []
  /\ exists d_loss s',
       compute_discrim_loss (GP := unit) (disc_fwd := toy_disc) (criterion := toy_crit)
         (mkT [[0]] false) (mkT [[1]] false) [1] [0] s0 = Ok (d_loss, s')
       /\ (toy_crit (toy_disc tt [[0]]) [1] + toy_crit (toy_disc tt [[1]]) [0]) / 2
          <= d_loss.
Proof.
  assert (Hs : same_shape [[0]] [[1]]) by (repeat constructor).
  assert (Hne : flatten [[0]] <> []) by (simpl; discriminate).
  split; [exact Hs|split; [exact Hne|]].
  destruct (compute_discrim_loss_penalty (disc_fwd := toy_disc) (criterion := toy_crit)
              (mkT [[0]] false) (mkT [[1]] false) [1] [0] s0 Hs Hne)
    as (d_loss & s' & E & L & _).
  exists d_loss, s'; split; [exact E|exact L].
Defined.

Lemma smooth_labels_length_witness :
  [1; 1] <> []
  /\ exists t', smooth_labels (GP := unit) (DP := unit) (uniform := toy_uniform) [1; 1] s0
                = Ok (t', advance 2 s0) /\ length t' = 2%nat.
Proof.
  assert (Hne : [1; 1] <> []) by discriminate.
  split; [exact Hne|].
  exact (smooth_labels_length (uniform := toy_uniform) [1; 1] s0 Hne).
Defined.

Lemma train_batch_step_witness :
  [[0]] <> []
  /\ exists s', (exists l, toy_train_batch [[0]] s0 = Ok (l, s'))
       /\ rng s' = (2 + LATENT_DIM)%nat.
Proof.
  assert (Hne : [[0]] <> ([] : list (list R))) by discriminate.
  split; [exact Hne|].
  destruct (train_batch_step (gen_fwd := toy_gen) (disc_fwd := toy_disc)
              (criterion := toy_crit) (opt_G := toy_step) (opt_D := toy_step)
              (uniform := toy_uniform) (normal := toy_normal) [[0]] s0 Hne)
    as [Hon _].
  destruct (Hon eq_refl) as (s' & E & _ & _ & Hr & _).
  exists s'; split; [eexists; exact E|rewrite Hr; reflexivity].
Defined.

Lemma train_epoch_params_witness :
  exists r s', toy_train_epoch [[[0]]] s0 = Ok (r, s')
    /\ gp s' = Nat.iter 1 toy_step (gp s0) /\ dp s' = Nat.iter 1 toy_step (dp s0).
Proof.
  destruct (train_epoch_ok (gen_fwd := toy_gen) (disc_fwd := toy_disc)
              (criterion := toy_crit) (opt_G := toy_step) (opt_D := toy_step)
              (uniform := toy_uniform) (normal := toy_normal) [[[0]]] s0)
    as (r & s' & E & _); [reflexivity|discriminate|repeat constructor; discriminate|].
  exists r, s'; split; [exact E|].
  exact (train_epoch_params (gen_fwd := toy_gen) (disc_fwd := toy_disc)
           (criterion := toy_crit) (opt_G := toy_step) (opt_D := toy_step)
           (uniform := toy_uniform) (normal := toy_normal) [[[0]]] s0 s' r E).
Defined.

Lemma train_epoch_empty_batch_witness :
  grad s0 = true /\ Forall (fun b : list (list R) => b <> []) [[[0]]]
  /\ toy_train_epoch [[[0]]; []] s0 = Err IndexError.
Proof.
  assert (Hg : grad s0 = true) by reflexivity.
  assert (H : Forall (fun b : list (list R) => b <> []) [[[0]]])
    by (repeat constructor; discriminate).
  split; [exact Hg|split; [exact H|]].
  exact (train_epoch_empty_batch (gen_fwd := toy_gen) (disc_fwd := toy_disc)
           (criterion := toy_crit) (opt_G := toy_step) (opt_D := toy_step)
           (uniform := toy_uniform) (normal := toy_normal) [[[0]]] [] s0 Hg H).
Defined.

Lemma validate_means_witness :
  [[[0]]; [[1]]] <> [] /\ Forall (fun b : list (list R) => b <> []) [[[0]]; [[1]]]
  /\ exists ls s', toy_validate [[[0]]; [[1]]] s0
       = Ok ((sumR (map fst ls) / INR 2, sumR (map snd ls) / INR 2),
             with_grad true s')
     /\ length ls = 2%nat.
Proof.
  assert (Hne : [[[0]]; [[1]]] <> ([] : list (list (list R)))) by discriminate.
  assert (Hf : Forall (fun b : list (list R) => b <> []) [[[0]]; [[1]]])
    by (repeat constructor; discriminate).
  split; [exact Hne|split; [exact Hf|]].
  destruct (validate_means (gen_fwd := toy_gen) (disc_fwd := toy_disc)
              (criterion := toy_crit) (normal := toy_normal) [[[0]]; [[1]]] s0 Hne Hf)
    as (ls & s' & _ & E & L).
  exists ls, s'; split; [exact E|exact L].
Defined.

Lemma training_loop_params_witness :
  exists s', toy_training_loop [[[0]]] [[[0]]] s0 = Ok (tt, s')
    /\ gp s' = Nat.iter (N_EPOCHS * 1) toy_step (gp s0)
    /\ dp s' = Nat.iter (N_EPOCHS * 1) toy_step (dp s0).
Proof.
  assert (E : exists s', toy_training_loop [[[0]]] [[[0]]] s0 = Ok (tt, s'))
      by exact toy_training_loop_ok.
  destruct E as (s' & E).
  exists s'; split; [exact E|].
  exact (training_loop_params (gen_fwd := toy_gen) (disc_fwd := toy_disc)
           (criterion := toy_crit) (opt_G := toy_step) (opt_D := toy_step)
           (uniform := toy_uniform) (normal := toy_normal) [[[0]]] [[[0]]] s0 s' tt E).
Defined.

Lemma generate_examples_plots_witness :
  (3 <= length (toy_gen (gp s0) (latent toy_normal (rng s0) 3)))%nat
  /\ @generate_examples unit unit toy_gen toy_normal 0 s0
     = Ok (tt, mkSt tt tt (3 * LATENT_DIM)%nat true
                 [EForward Gen true (mkT (latent toy_normal 0 3) false);
                  EPlot 1 1; EPlot 2 1; EPlot 3 1]).
Proof.
  assert (H : (3 <= length (toy_gen (gp s0) (latent toy_normal (rng s0) 3)))%nat)
    by (apply Nat.leb_le; vm_compute; reflexivity).
  split; [exact H|].
  exact (generate_examples_plots (gen_fwd := toy_gen) (normal := toy_normal) 0 s0 H).
Defined.
